(** * interlink-slurm-plugin: the submission path (pkg/slurm/Create.go)

    A shallow embedding of [createRuntime], [parseMem] and [SubmitHandler]
    together with the properties of the submission path.

    Conventions.
    - Go [string] is a byte string: [string] of the Standard Library.
    - Go [int64] is [Z]; arithmetic that can leave the range is wrapped
      explicitly with [wrap64].  Go [int] is taken as 64 bits wide
      (amd64, arm64), so [int(x)] of an [int64] is [x].  The conversion
      of a [float64] that no [int64] represents is implementation
      dependent; it is taken as on amd64, where it yields the least
      [int64].
    - A Go pair [(v, err)] is a pair [(v, option error)]; [None] is [nil].
      [createRuntime], whose value is [nil] exactly when it fails, returns
      a sum.
    - The job-tracking map [h.JIDs] is a [gmap string string], from pod
      identifier to job identifier.
    - Calls that leave the package (collaborators, the response writer,
      the file system, the log) are recorded in a trace of events. *)

From Stdlib Require Import ZArith Lia Ascii.
From Stdlib Require QArith.QArith_base QArith.Qround.
From stdpp Require Import gmap strings list.

Local Open Scope Z_scope.

(** ** Errors *)

Inductive error : Type :=
| errors_New (msg : string)          (* errors.New / fmt.Errorf *)
| ErrSyntax (fn num : string)        (* strconv.NumError with ErrSyntax *)
| ErrRange (fn num : string).        (* strconv.NumError with ErrRange *)

(** ** Machine integers *)

Definition maxInt64 : Z := 2 ^ 63 - 1.
Definition minInt64 : Z := - 2 ^ 63.
Definition maxUint64 : Z := 2 ^ 64 - 1.

(** Two's complement wrap-around of a mathematical integer to [int64]. *)
Definition wrap64 (z : Z) : Z := (z + 2 ^ 63) mod 2 ^ 64 - 2 ^ 63.

(** [a * b] on [int64]. *)
Definition mul64 (a b : Z) : Z := wrap64 (a * b).

(** [int(x)] for [x : int64] on a 64-bit platform. *)
Definition int_of_int64 (x : Z) : Z := x.

(** [int64(f)] for a [float64] [f] whose value is the integer [z]: [z]
    when an [int64] represents it, and otherwise the least [int64] (the
    result of the conversion instruction of amd64). *)
Definition int64_of_float (z : Z) : Z :=
  if (minInt64 <=? z) && (z <=? maxInt64) then z else minInt64.

(** ** Strings *)

Module Str.

Definition is_digit (c : ascii) : bool :=
  let n := nat_of_ascii c in (48 <=? n)%nat && (n <=? 57)%nat.

Definition digit_val (c : ascii) : Z := Z.of_nat (nat_of_ascii c) - 48.

Fixpoint all_digits (s : string) : bool :=
  match s with
  | EmptyString => true
  | String c r => is_digit c && all_digits r
  end.

(** The longest prefix of decimal digits, and what follows it. *)
Fixpoint span_digits (s : string) : string * string :=
  match s with
  | EmptyString => (EmptyString, EmptyString)
  | String c r =>
      if is_digit c
      then let '(ds, rest) := span_digits r in (String c ds, rest)
      else (EmptyString, s)
  end.

(** [strings.HasPrefix s p]. *)
Fixpoint has_prefix (p s : string) : bool :=
  match p, s with
  | EmptyString, _ => true
  | String a p', String b s' => if Ascii.eqb a b then has_prefix p' s' else false
  | String _ _, EmptyString => false
  end.

(** [strings.Contains s sub]. *)
Fixpoint contains (sub s : string) : bool :=
  has_prefix sub s ||
  match s with
  | EmptyString => false
  | String _ r => contains sub r
  end.

End Str.

(** ** strconv.ParseInt(s, 10, 64)

    The standard library's algorithm at base 10 and bit size 64:
    [ParseUint] accumulates [n = n*10 + d] with its two overflow checks,
    [ParseInt] strips the sign and checks the signed range. *)

Module strconv.

Definition cutoff : Z := maxUint64 / 10 + 1.

Fixpoint ParseUint_loop (s0 : string) (n : Z) (s : string) : Z * option error :=
  match s with
  | EmptyString => (n, None)
  | String c r =>
      if negb (Str.is_digit c) then (0, Some (ErrSyntax "ParseUint" s0))
      else if cutoff <=? n then (maxUint64, Some (ErrRange "ParseUint" s0))
      else
        let n' := n * 10 in
        let n1 := (n' + Str.digit_val c) mod 2 ^ 64 in
        if (n1 <? n') || (maxUint64 <? n1)
        then (maxUint64, Some (ErrRange "ParseUint" s0))
        else ParseUint_loop s0 n1 r
  end.

Definition ParseUint (s : string) : Z * option error :=
  match s with
  | EmptyString => (0, Some (ErrSyntax "ParseUint" s))
  | _ => ParseUint_loop s 0 s
  end.

Definition ParseInt (s : string) : Z * option error :=
  match s with
  | EmptyString => (0, Some (ErrSyntax "ParseInt" s))
  | String c r =>
      let '(neg, body) :=
        if Ascii.eqb c "+" then (false, r)
        else if Ascii.eqb c "-" then (true, r)
        else (false, s) in
      let '(un, err) := ParseUint body in
      let cut := 2 ^ 63 in
      match err with
      | Some (ErrSyntax _ _) | Some (errors_New _) =>
          (0, Some (ErrSyntax "ParseInt" s))
      | Some (ErrRange _ _) | None =>
          if negb neg && (cut <=? un) then (cut - 1, Some (ErrRange "ParseInt" s))
          else if neg && (cut <? un) then (- cut, Some (ErrRange "ParseInt" s))
          else (if neg then - un else un, None)
      end
  end.

End strconv.

(** ** createRuntime (Create.go, lines 26-35) *)

Inductive Runtime : Type :=
| SingularityRuntime
| EnrootRuntime.

Definition createRuntime (containerRuntime : string) : Runtime + error :=
  if String.eqb containerRuntime "singularity" then inl SingularityRuntime
  else if String.eqb containerRuntime "enroot" then inl EnrootRuntime
  else inr (errors_New "invalid runtime").

(** ** parseMem (Create.go, lines 37-57) *)

(** [regexp.MustCompile(`^(\d+)([KMG]?)$`).FindStringSubmatch(val)]: the
    whole match and the two groups, or [nil].  [\d+] is greedy and the
    rest of the pattern accepts no digit, so the first group is the
    longest digit prefix; [$] (no [m] flag) is the end of the text. *)
Definition is_unit (u : string) : bool :=
  String.eqb u EmptyString || String.eqb u "K" || String.eqb u "M" || String.eqb u "G".

Definition FindStringSubmatch (val : string) : list string :=
  let '(ds, rest) := Str.span_digits val in
  match ds with
  | EmptyString => []
  | String _ _ => if is_unit rest then [val; ds; rest] else []
  end.

Definition parseMem (val : string) : Z * option error :=
  let m := FindStringSubmatch val in
  if negb (length m =? 3)%nat then
    (0, Some (errors_New ("invalid memory format: " +:+ val)))
  else
    let '(n, err) := strconv.ParseInt (nth 1 m EmptyString) in
    match err with
    | Some e => (0, Some e)
    | None =>
        let u := nth 2 m EmptyString in
        if String.eqb u "G" then (mul64 (mul64 (mul64 n 1024) 1024) 1024, None)
        else if String.eqb u "M" then (mul64 (mul64 n 1024) 1024, None)
        else if String.eqb u "K" then (mul64 n 1024, None)
        else (n, None)
    end.

(** ** strings.ReplaceAll

    One pass from the left; a match is replaced and the scan resumes
    after it, so matches never overlap.  [skip] counts the bytes of the
    current match still to be dropped.  For an empty [old] the library
    inserts [new] before every rune and at the end; that branch is
    written byte-wise here and is not used by this package. *)

Fixpoint replace_from (old new : string) (skip : nat) (s : string) : string :=
  match s with
  | EmptyString => EmptyString
  | String c r =>
      match skip with
      | S k => replace_from old new k r
      | O =>
          if Str.has_prefix old s
          then new +:+ replace_from old new (String.length old - 1) r
          else String c (replace_from old new 0 r)
      end
  end.

Fixpoint insert_everywhere (new s : string) : string :=
  match s with
  | EmptyString => new
  | String c r => new +:+ String c (insert_everywhere new r)
  end.

Definition ReplaceAll (s old new : string) : string :=
  match old with
  | EmptyString => if String.eqb new EmptyString then s else insert_everywhere new s
  | String _ _ => replace_from old new 0 s
  end.

(** The call of line 173 on a non-empty pattern. *)
Definition strip (s : string) : string := replace_from ":ro" EmptyString 0 s.

(** ** Data model *)

(** The fields of [v1.Container] read by the handler.  The CPU limit is a
    [resource.Quantity]; [Limits_Cpu] is the finite [float64] that
    [Cpu().AsApproximateFloat64()] returns, as the rational it denotes,
    and [Limits_Memory] is the value returned by [Memory().AsInt64()]. *)
Record Container : Type := {
  Name : string;
  Image : string;
  Command : list string;
  Args : list string;
  Limits_Cpu : QArith_base.Q;
  Limits_Memory : Z;
}.

Record ObjectMeta : Type := {
  meta_Name : string;
  Namespace : string;
  UID : string;
}.

Record Pod : Type := {
  Pod_ObjectMeta : ObjectMeta;
  InitContainers : list Container;
  Containers : list Container;
}.

Record RetrievedPodData : Type := { data_Pod : Pod }.

(** types.go; of [SlurmConfig] only the fields read in Create.go. *)
Record SlurmConfig : Type := {
  DataRootFolder : string;
  ContainerRuntime : string;
}.

Record CreateStruct : Type := {
  PodUID : string;
  PodJID : string;
}.

Record ContainerCommand : Type := {
  containerName : string;
  isInitContainer : bool;
  runtimeCommand : list string;
  containerCommand : list string;
  containerArgs : list string;
  containerImage : string;
}.

Record ResourceLimits : Type := {
  CPU : Z;
  Memory : Z;
}.

(** [h.JIDs]: pod identifier to job identifier. *)
Abbreviation JIDs_t := (gmap string string).

Record SidecarHandler : Type := {
  Config : SlurmConfig;
  JIDs : JIDs_t;
}.

Definition StatusOK : Z := 200.
Definition StatusInternalServerError : Z := 500.
Definition StatusGatewayTimeout : Z := 504.

(** ** Events *)

Inductive Resource : Type := ResCPU | ResMemory.

(** A call that can fail is recorded when it returns, with [ok] telling
    whether its error was [nil]. *)
Inductive Event : Type :=
| LogWarning (res : Resource) (container : string)
| CallReadAll (ok : bool)
| CallCreateRuntime (name : string) (ok : bool)
| CallUnmarshal (ok : bool)
| CallPrepareMounts (container : string) (ok : bool)
| CallPrepareEnvs (container : string)
| CallPrepareImage (image : string)
| CallPrepareCommand (rt : Runtime) (container : string)
| CallProduceSLURMScript (cmds : list ContainerCommand) (limits : ResourceLimits)
    (isDefaultCPU isDefaultRam : bool) (ok : bool)
| CallSLURMBatchSubmit (path : string) (ok : bool)
| CallHandleJidAndPodUid (uid : string) (ok : bool)
| CallDeleteContainer (uid : string)
| CallMarshal (ok : bool)
| CallHandleError (code : Z)
| RemoveAll (path : string)
| WriteHeader (code : Z)
| Write (body : string).

Definition is_nil (err : option error) : bool :=
  match err with
  | None => true
  | Some _ => false
  end.

(** ** Collaborators

    The functions of the package that Create.go calls and that live in
    other files, and the library calls whose outcome the handler
    branches on.  Each is a function of its arguments. *)

Record Request : Type := {
  ReadAll_Body : string * option error;    (* io.ReadAll(r.Body) *)
}.

Record Collaborators : Type := {
  json_Unmarshal : string -> RetrievedPodData * option error;
  prepareMounts :
    SlurmConfig -> RetrievedPodData -> Container -> string -> string * option error;
  prepareEnvs : SlurmConfig -> RetrievedPodData -> Container -> list string;
  prepareImage : SlurmConfig -> ObjectMeta -> string -> string;
  prepareCommand : Runtime -> SlurmConfig -> Container -> ObjectMeta -> list string;
  produceSLURMScript :
    SlurmConfig -> string -> string -> ObjectMeta -> list ContainerCommand ->
    ResourceLimits -> bool -> bool -> string * option error;
  SLURMBatchSubmit : SlurmConfig -> string -> string * option error;
  handleJidAndPodUid :
    Pod -> JIDs_t -> string -> string -> (string * option error) * JIDs_t;
  deleteContainer_err : SlurmConfig -> string -> JIDs_t -> string -> option error;
  json_Marshal : CreateStruct -> string * option error;
}.

(** ** The handler's monad

    State: the trace of events so far, the job-tracking map and the local
    variable [statusCode].  [Returned] is Go's [return] out of the
    handler: the rest of the body is skipped. *)

Record HState : Type := {
  trace : list Event;
  store : JIDs_t;
  statusCode : Z;
}.

Inductive Flow (A : Type) : Type :=
| Next (a : A)
| Returned.
Arguments Next {A} a.
Arguments Returned {A}.

Definition M (A : Type) : Type := HState -> Flow A * HState.

Definition ret {A} (a : A) : M A := fun s => (Next a, s).

Definition bind {A B} (m : M A) (k : A -> M B) : M B :=
  fun s =>
    match m s with
    | (Next a, s') => k a s'
    | (Returned, s') => (Returned, s')
    end.

Definition return_ {A} : M A := fun s => (Returned, s).

Definition emit (e : Event) : M unit :=
  fun s => (Next tt, {| trace := trace s ++ [e]; store := store s;
                        statusCode := statusCode s |}).

Definition emit_all (es : list Event) : M unit :=
  fun s => (Next tt, {| trace := trace s ++ es; store := store s;
                        statusCode := statusCode s |}).

Definition set_statusCode (c : Z) : M unit :=
  fun s => (Next tt, {| trace := trace s; store := store s; statusCode := c |}).

Definition get_statusCode : M Z := fun s => (Next (statusCode s), s).

Definition get_store : M JIDs_t := fun s => (Next (store s), s).

Definition put_store (j : JIDs_t) : M unit :=
  fun s => (Next tt, {| trace := trace s; store := j; statusCode := statusCode s |}).

Declare Scope go_scope.
Delimit Scope go_scope with go.
Notation "x <- m ;; k" := (bind m (fun x => k))
  (at level 100, m at next level, right associativity) : go_scope.
Notation "m ;; k" := (bind m (fun _ => k))
  (at level 100, right associativity) : go_scope.
Local Open Scope go_scope.

(** ** Functions of the package that are not in Create.go *)

Definition generic_message : string :=
  "Some errors occurred while creating containers. Check Slurm Sidecar's logs".

(** Modelled from the spec: [h.handleError] is defined outside Create.go.
    Section 6 of the specification: on an internal failure the caller gets
    "an error status and a generic diagnostic message directing the
    operator to collaborator logs".  The status written is the one the
    call site passes.  The call itself, with the status that
    [SubmitHandler] passes, is recorded first. *)
Definition handleError (code : Z) (err : error) : M unit :=
  emit (CallHandleError code) ;;
  emit (WriteHeader code) ;; emit (Write generic_message).

(** Modelled from the spec: [deleteContainer] is defined outside Create.go.
    Sections 5 and 6 of the specification: the deletion path cancels the
    job and is the one place that removes a pod's entry from the
    job-tracking store; its failure is reported to the caller of
    [deleteContainer], which only logs it. *)
Definition deleteContainer (env : Collaborators) (config : SlurmConfig)
    (podUID : string) (filesPath : string) : M (option error) :=
  emit (CallDeleteContainer podUID) ;;
  j <- get_store ;;
  put_store (delete podUID j) ;;
  ret (deleteContainer_err env config podUID j filesPath).

(** ** The aggregation of resource limits (Create.go, lines 106-150) *)

Record AggState : Type := {
  isDefaultCPU : bool;
  isDefaultRam : bool;
  maxCPULimit : Z;
  maxMemoryLimit : Z;
  cpuLimit : Z;
  memoryLimit : Z;
  resourceLimits : ResourceLimits;
}.

(** Lines 104-113. *)
Definition agg_init : AggState :=
  {| isDefaultCPU := true; isDefaultRam := true;
     maxCPULimit := 0; maxMemoryLimit := 0;
     cpuLimit := 0; memoryLimit := 0;
     resourceLimits := {| CPU := 0; Memory := 0 |} |}.

(** [int64(math.Ceil(cpuLimitFloat))], line 123. *)
Definition cpuLimitFromContainer (container : Container) : Z :=
  int64_of_float (Qround.Qceiling (Limits_Cpu container)).

(** Line 121. *)
Definition memoryLimitFromContainer (container : Container) : Z :=
  Limits_Memory container.

(** Lines 125-135. *)
Definition cpu_rule (container : Container) (a : AggState) : AggState * list Event :=
  let c := cpuLimitFromContainer container in
  if (c =? 0) && isDefaultCPU a then
    ({| isDefaultCPU := isDefaultCPU a; isDefaultRam := isDefaultRam a;
        maxCPULimit := maxCPULimit a; maxMemoryLimit := maxMemoryLimit a;
        cpuLimit := cpuLimit a; memoryLimit := memoryLimit a;
        resourceLimits := {| CPU := 1; Memory := Memory (resourceLimits a) |} |},
     [LogWarning ResCPU (Name container)])
  else if (CPU (resourceLimits a) <? c) && (maxCPULimit a <? int_of_int64 c) then
    ({| isDefaultCPU := false; isDefaultRam := isDefaultRam a;
        maxCPULimit := int_of_int64 c; maxMemoryLimit := maxMemoryLimit a;
        cpuLimit := c; memoryLimit := memoryLimit a;
        resourceLimits := resourceLimits a |}, [])
  else (a, []).

(** Lines 137-147. *)
Definition mem_rule (container : Container) (a : AggState) : AggState * list Event :=
  let m := memoryLimitFromContainer container in
  if (m =? 0) && isDefaultRam a then
    ({| isDefaultCPU := isDefaultCPU a; isDefaultRam := isDefaultRam a;
        maxCPULimit := maxCPULimit a; maxMemoryLimit := maxMemoryLimit a;
        cpuLimit := cpuLimit a; memoryLimit := memoryLimit a;
        resourceLimits := {| CPU := CPU (resourceLimits a); Memory := 1024 * 1024 |} |},
     [LogWarning ResMemory (Name container)])
  else if (Memory (resourceLimits a) <? m) && (maxMemoryLimit a <? int_of_int64 m) then
    ({| isDefaultCPU := isDefaultCPU a; isDefaultRam := false;
        maxCPULimit := maxCPULimit a; maxMemoryLimit := int_of_int64 m;
        cpuLimit := cpuLimit a; memoryLimit := m;
        resourceLimits := resourceLimits a |}, [])
  else (a, []).

(** Lines 149-150. *)
Definition commit_limits (a : AggState) : AggState :=
  {| isDefaultCPU := isDefaultCPU a; isDefaultRam := isDefaultRam a;
     maxCPULimit := maxCPULimit a; maxMemoryLimit := maxMemoryLimit a;
     cpuLimit := cpuLimit a; memoryLimit := memoryLimit a;
     resourceLimits := {| CPU := cpuLimit a; Memory := memoryLimit a |} |}.

(** Lines 120-150 for one container: the new state and the warnings. *)
Definition limits_step (container : Container) (a : AggState) : AggState * list Event :=
  let '(a1, w1) := cpu_rule container a in
  let '(a2, w2) := mem_rule container a1 in
  (commit_limits a2, w1 ++ w2).

(** The limits part of the loop over a whole container list. *)
Fixpoint aggregate_from (a : AggState) (ws : list Event) (cs : list Container)
  : AggState * list Event :=
  match cs with
  | [] => (a, ws)
  | c :: rest =>
      let '(a', w) := limits_step c a in
      aggregate_from a' (ws ++ w) rest
  end.

Definition aggregate (cs : list Container) : AggState * list Event :=
  aggregate_from agg_init [] cs.

(** ** SubmitHandler (Create.go, lines 61-248) *)

Record LoopState : Type := {
  agg : AggState;
  runtime_command_pod : list ContainerCommand;
}.

(** Lines 166-177: the command of one container.  The [switch] has no
    [default]: another runtime name leaves the command as it is. *)
Definition assemble (config : SlurmConfig) (commstr1 envs : list string)
    (mounts image : string) (container : Container) (uid : string) : list string :=
  let runtime_command := commstr1 ++ envs in
  if String.eqb (ContainerRuntime config) "singularity" then
    (runtime_command ++ [mounts]) ++ [image]
  else if String.eqb (ContainerRuntime config) "enroot" then
    let containerName := Name container +:+ uid in
    let mounts := ReplaceAll mounts ":ro" EmptyString in
    (runtime_command ++ [mounts]) ++ [containerName]
  else runtime_command.

(** Lines 116-194: the body of the loop for the container at index [i].
    [prepareMounts] receives [&data] and [&container]; it is taken not to
    write through them. *)
Definition loop_body (h : SidecarHandler) (env : Collaborators)
    (containerRuntime : Runtime) (data : RetrievedPodData) (metadata : ObjectMeta)
    (filesPath : string) (i : nat) (container : Container) (st : LoopState)
  : M LoopState :=
  let '(a, warnings) := limits_step container (agg st) in
  emit_all warnings ;;
  let '(mounts, err) := prepareMounts env (Config h) data container filesPath in
  emit (CallPrepareMounts (Name container) (is_nil err)) ;;
  match err with
  | Some e =>
      set_statusCode StatusInternalServerError ;;
      handleError StatusGatewayTimeout e ;;
      emit (RemoveAll filesPath) ;;
      return_
  | None =>
      emit (CallPrepareEnvs (Name container)) ;;
      let envs := prepareEnvs env (Config h) data container in
      emit (CallPrepareImage (Image container)) ;;
      let image := prepareImage env (Config h) metadata (Image container) in
      emit (CallPrepareCommand containerRuntime (Name container)) ;;
      let commstr1 := prepareCommand env containerRuntime (Config h) container metadata in
      let runtime_command :=
        assemble (Config h) commstr1 envs mounts image container (UID metadata) in
      let isInit := (i <? length (InitContainers (data_Pod data)))%nat in
      ret {| agg := a;
             runtime_command_pod :=
               runtime_command_pod st ++
               [ {| containerName := Name container;
                    isInitContainer := isInit;
                    runtimeCommand := runtime_command;
                    containerCommand := Command container;
                    containerArgs := Args container;
                    containerImage := image |} ] |}
  end.

(** [for i, container := range containers], starting at index [i]. *)
Fixpoint range_containers (body : nat -> Container -> LoopState -> M LoopState)
    (i : nat) (containers : list Container) (st : LoopState) : M LoopState :=
  match containers with
  | [] => ret st
  | container :: rest =>
      st' <- body i container st ;;
      range_containers body (S i) rest st'
  end.

Definition loop_init : LoopState :=
  {| agg := agg_init; runtime_command_pod := [] |}.

Definition filesPath_of (h : SidecarHandler) (data : RetrievedPodData) : string :=
  DataRootFolder (Config h) +:+ Namespace (Pod_ObjectMeta (data_Pod data)) +:+ "-"
    +:+ UID (Pod_ObjectMeta (data_Pod data)).

Definition SubmitHandler (h : SidecarHandler) (env : Collaborators) (r : Request)
  : M unit :=
  set_statusCode StatusOK ;;
  let '(bodyBytes, err) := ReadAll_Body r in
  emit (CallReadAll (is_nil err)) ;;
  match err with
  | Some e =>
      set_statusCode StatusInternalServerError ;;
      sc <- get_statusCode ;;
      handleError sc e ;;
      return_
  | None =>
  match createRuntime (ContainerRuntime (Config h)) with
  | inr e =>
      emit (CallCreateRuntime (ContainerRuntime (Config h)) false) ;;
      set_statusCode StatusInternalServerError ;;
      sc <- get_statusCode ;;
      handleError sc e ;;
      return_
  | inl containerRuntime =>
  emit (CallCreateRuntime (ContainerRuntime (Config h)) true) ;;
  let '(data, err) := json_Unmarshal env bodyBytes in
  emit (CallUnmarshal (is_nil err)) ;;
  match err with
  | Some e =>
      set_statusCode StatusInternalServerError ;;
      handleError StatusGatewayTimeout e ;;
      return_
  | None =>
  let containers := InitContainers (data_Pod data) ++ Containers (data_Pod data) in
  let metadata := Pod_ObjectMeta (data_Pod data) in
  let filesPath := filesPath_of h data in
  st <- range_containers (loop_body h env containerRuntime data metadata filesPath)
          0 containers loop_init ;;
  let '(path, err) :=
    produceSLURMScript env (Config h) (UID metadata) filesPath metadata
      (runtime_command_pod st) (resourceLimits (agg st))
      (isDefaultCPU (agg st)) (isDefaultRam (agg st)) in
  emit (CallProduceSLURMScript (runtime_command_pod st) (resourceLimits (agg st))
          (isDefaultCPU (agg st)) (isDefaultRam (agg st)) (is_nil err)) ;;
  match err with
  | Some e =>
      emit (RemoveAll filesPath) ;;
      return_
  | None =>
  let '(out, err) := SLURMBatchSubmit env (Config h) path in
  emit (CallSLURMBatchSubmit path (is_nil err)) ;;
  match err with
  | Some e =>
      set_statusCode StatusInternalServerError ;;
      handleError StatusGatewayTimeout e ;;
      emit (RemoveAll filesPath) ;;
      return_
  | None =>
  j <- get_store ;;
  let '((jid, err), j') := handleJidAndPodUid env (data_Pod data) j out filesPath in
  put_store j' ;;
  emit (CallHandleJidAndPodUid (UID metadata) (is_nil err)) ;;
  match err with
  | Some e =>
      set_statusCode StatusInternalServerError ;;
      handleError StatusGatewayTimeout e ;;
      emit (RemoveAll filesPath) ;;
      _ <- deleteContainer env (Config h) (UID metadata) filesPath ;;
      return_
  | None =>
  let returnedJID := {| PodUID := UID metadata; PodJID := jid |} in
  let '(returnedJIDBytes, err) := json_Marshal env returnedJID in
  emit (CallMarshal (is_nil err)) ;;
  match err with
  | Some e =>
      set_statusCode StatusInternalServerError ;;
      sc <- get_statusCode ;;
      handleError sc e ;;
      return_
  | None =>
  sc <- get_statusCode ;;
  emit (WriteHeader sc) ;;
  if negb (sc =? StatusOK)
  then emit (Write generic_message)
  else emit (Write returnedJIDBytes)
  end end end end end end end.

(** The state in which a request finds the handler, and a run from it. *)
Definition initial (h : SidecarHandler) : HState :=
  {| trace := []; store := JIDs h; statusCode := 0 |}.

Definition run (h : SidecarHandler) (env : Collaborators) (r : Request) : HState :=
  snd (SubmitHandler h env r (initial h)).

(** ** Reading a trace *)

(** What the caller receives: the writes to the response writer. *)
Definition is_response (e : Event) : bool :=
  match e with
  | WriteHeader _ | Write _ => true
  | _ => false
  end.

Definition response (s : HState) : list Event := List.filter is_response (trace s).

(** The scheduler-visible actions: script generation and submission. *)
Definition scheduler_visible (e : Event) : bool :=
  match e with
  | CallProduceSLURMScript _ _ _ _ _ | CallSLURMBatchSubmit _ _ => true
  | _ => false
  end.

(** The work done per container, inside the loop. *)
Definition container_level (e : Event) : bool :=
  match e with
  | LogWarning _ _ | CallPrepareMounts _ _ | CallPrepareEnvs _
  | CallPrepareImage _ | CallPrepareCommand _ _ => true
  | _ => false
  end.

Definition failed_mounts (e : Event) : bool :=
  match e with
  | CallPrepareMounts _ false => true
  | _ => false
  end.

Definition is_warning (e : Event) : bool :=
  match e with
  | LogWarning _ _ => true
  | _ => false
  end.

Definition is_runtime_selection (e : Event) : bool :=
  match e with
  | CallCreateRuntime _ _ => true
  | _ => false
  end.

Definition is_cancellation (e : Event) : bool :=
  match e with
  | CallDeleteContainer _ => true
  | _ => false
  end.

(** The failed calls after which the handler passes
    [http.StatusGatewayTimeout] to [handleError]. *)
Definition gateway_failure (e : Event) : bool :=
  match e with
  | CallUnmarshal false | CallPrepareMounts _ false
  | CallSLURMBatchSubmit _ false | CallHandleJidAndPodUid _ false => true
  | _ => false
  end.

(** The failed calls after which the handler passes [statusCode]. *)
Definition internal_failure (e : Event) : bool :=
  match e with
  | CallReadAll false | CallCreateRuntime _ false | CallMarshal false => true
  | _ => false
  end.

Definition script_failure (e : Event) : bool :=
  match e with
  | CallProduceSLURMScript _ _ _ _ false => true
  | _ => false
  end.

Definition jid_failure (e : Event) : bool :=
  match e with
  | CallHandleJidAndPodUid _ false => true
  | _ => false
  end.

(** [a] occurs in [tr] and [b] occurs later. *)
Definition occurs_before (a b : Event) (tr : list Event) : Prop :=
  exists l1 l2 l3, tr = l1 ++ a :: l2 ++ b :: l3.

(** ** The loop without its monad

    The events and the commands of the iterations that do not fail,
    written as plain functions; [range_ok] and [range_fail] show that the
    loop of the handler produces exactly these. *)

Definition mounts_ok (h : SidecarHandler) (env : Collaborators)
    (data : RetrievedPodData) (c : Container) : bool :=
  is_nil (snd (prepareMounts env (Config h) data c (filesPath_of h data))).

Definition body_events (rt : Runtime) (c : Container) (a : AggState) : list Event :=
  snd (limits_step c a) ++
  [CallPrepareMounts (Name c) true; CallPrepareEnvs (Name c);
   CallPrepareImage (Image c); CallPrepareCommand rt (Name c)].

Definition failure_events (filesPath : string) (c : Container) (a : AggState)
  : list Event :=
  snd (limits_step c a) ++
  [CallPrepareMounts (Name c) false; CallHandleError StatusGatewayTimeout;
   WriteHeader StatusGatewayTimeout; Write generic_message; RemoveAll filesPath].

Fixpoint loop_events (rt : Runtime) (a : AggState) (cs : list Container) : list Event :=
  match cs with
  | [] => []
  | c :: rest => body_events rt c a ++ loop_events rt (fst (limits_step c a)) rest
  end.

Definition command_of (h : SidecarHandler) (env : Collaborators) (rt : Runtime)
    (data : RetrievedPodData) (i : nat) (c : Container) : ContainerCommand :=
  let metadata := Pod_ObjectMeta (data_Pod data) in
  let image := prepareImage env (Config h) metadata (Image c) in
  {| containerName := Name c;
     isInitContainer := (i <? length (InitContainers (data_Pod data)))%nat;
     runtimeCommand :=
       assemble (Config h) (prepareCommand env rt (Config h) c metadata)
         (prepareEnvs env (Config h) data c)
         (fst (prepareMounts env (Config h) data c (filesPath_of h data)))
         image c (UID metadata);
     containerCommand := Command c;
     containerArgs := Args c;
     containerImage := image |}.

Fixpoint commands_from (h : SidecarHandler) (env : Collaborators) (rt : Runtime)
    (data : RetrievedPodData) (i : nat) (cs : list Container) : list ContainerCommand :=
  match cs with
  | [] => []
  | c :: rest => command_of h env rt data i c :: commands_from h env rt data (S i) rest
  end.

Definition all_containers (data : RetrievedPodData) : list Container :=
  InitContainers (data_Pod data) ++ Containers (data_Pod data).

(** ** The paths through the handler

    [Outcome h env r s]: [s] is the final state of one of the nine ways
    in which the handler can end, each given with the results of the
    calls that select it.  [run_outcome] shows that every run ends in one
    of them. *)

Definition pod_uid (data : RetrievedPodData) : string :=
  UID (Pod_ObjectMeta (data_Pod data)).

Definition final_agg (data : RetrievedPodData) : AggState :=
  fst (aggregate (all_containers data)).

Definition final_commands (h : SidecarHandler) (env : Collaborators) (rt : Runtime)
    (data : RetrievedPodData) : list ContainerCommand :=
  commands_from h env rt data 0 (all_containers data).

Definition script_call (h : SidecarHandler) (env : Collaborators) (rt : Runtime)
    (data : RetrievedPodData) : string * option error :=
  produceSLURMScript env (Config h) (pod_uid data) (filesPath_of h data)
    (Pod_ObjectMeta (data_Pod data)) (final_commands h env rt data)
    (resourceLimits (final_agg data))
    (isDefaultCPU (final_agg data)) (isDefaultRam (final_agg data)).

Definition script_event (h : SidecarHandler) (env : Collaborators) (rt : Runtime)
    (data : RetrievedPodData) (ok : bool) : Event :=
  CallProduceSLURMScript (final_commands h env rt data)
    (resourceLimits (final_agg data))
    (isDefaultCPU (final_agg data)) (isDefaultRam (final_agg data)) ok.

Definition error_response (code : Z) : list Event :=
  [WriteHeader code; Write generic_message].

(** The events of a call [h.handleError(spanCtx, w, code, err)]. *)
Definition handled (code : Z) : list Event :=
  CallHandleError code :: error_response code.

(** The events up to the end of the loop, when the loop runs to its end. *)
Definition through_loop (h : SidecarHandler) (rt : Runtime) (data : RetrievedPodData)
  : list Event :=
  [CallReadAll true; CallCreateRuntime (ContainerRuntime (Config h)) true;
   CallUnmarshal true] ++
  loop_events rt agg_init (all_containers data).

Inductive Outcome (h : SidecarHandler) (env : Collaborators) (r : Request)
  : HState -> Prop :=
| BodyReadFailed body e :
    ReadAll_Body r = (body, Some e) ->
    Outcome h env r
      {| trace := CallReadAll false :: handled StatusInternalServerError;
         store := JIDs h; statusCode := StatusInternalServerError |}
| UnknownRuntime body e :
    ReadAll_Body r = (body, None) ->
    createRuntime (ContainerRuntime (Config h)) = inr e ->
    Outcome h env r
      {| trace := [CallReadAll true;
                   CallCreateRuntime (ContainerRuntime (Config h)) false] ++
                  handled StatusInternalServerError;
         store := JIDs h; statusCode := StatusInternalServerError |}
| UnmarshalFailed body rt data e :
    ReadAll_Body r = (body, None) ->
    createRuntime (ContainerRuntime (Config h)) = inl rt ->
    json_Unmarshal env body = (data, Some e) ->
    Outcome h env r
      {| trace := [CallReadAll true;
                   CallCreateRuntime (ContainerRuntime (Config h)) true;
                   CallUnmarshal false] ++
                  handled StatusGatewayTimeout;
         store := JIDs h; statusCode := StatusInternalServerError |}
| MountsFailed body rt data cs1 c cs2 :
    ReadAll_Body r = (body, None) ->
    createRuntime (ContainerRuntime (Config h)) = inl rt ->
    json_Unmarshal env body = (data, None) ->
    all_containers data = cs1 ++ c :: cs2 ->
    forallb (mounts_ok h env data) cs1 = true ->
    mounts_ok h env data c = false ->
    Outcome h env r
      {| trace := [CallReadAll true;
                   CallCreateRuntime (ContainerRuntime (Config h)) true;
                   CallUnmarshal true] ++
                  loop_events rt agg_init cs1 ++
                  failure_events (filesPath_of h data) c (fst (aggregate cs1));
         store := JIDs h; statusCode := StatusInternalServerError |}
| ScriptFailed body rt data path e :
    ReadAll_Body r = (body, None) ->
    createRuntime (ContainerRuntime (Config h)) = inl rt ->
    json_Unmarshal env body = (data, None) ->
    forallb (mounts_ok h env data) (all_containers data) = true ->
    script_call h env rt data = (path, Some e) ->
    Outcome h env r
      {| trace := through_loop h rt data ++
                  [script_event h env rt data false;
                   RemoveAll (filesPath_of h data)];
         store := JIDs h; statusCode := StatusOK |}
| SubmitFailed body rt data path out e :
    ReadAll_Body r = (body, None) ->
    createRuntime (ContainerRuntime (Config h)) = inl rt ->
    json_Unmarshal env body = (data, None) ->
    forallb (mounts_ok h env data) (all_containers data) = true ->
    script_call h env rt data = (path, None) ->
    SLURMBatchSubmit env (Config h) path = (out, Some e) ->
    Outcome h env r
      {| trace := through_loop h rt data ++
                  [script_event h env rt data true;
                   CallSLURMBatchSubmit path false] ++
                  handled StatusGatewayTimeout ++
                  [RemoveAll (filesPath_of h data)];
         store := JIDs h; statusCode := StatusInternalServerError |}
| JidFailed body rt data path out jid e j' :
    ReadAll_Body r = (body, None) ->
    createRuntime (ContainerRuntime (Config h)) = inl rt ->
    json_Unmarshal env body = (data, None) ->
    forallb (mounts_ok h env data) (all_containers data) = true ->
    script_call h env rt data = (path, None) ->
    SLURMBatchSubmit env (Config h) path = (out, None) ->
    handleJidAndPodUid env (data_Pod data) (JIDs h) out (filesPath_of h data) =
      ((jid, Some e), j') ->
    Outcome h env r
      {| trace := through_loop h rt data ++
                  [script_event h env rt data true;
                   CallSLURMBatchSubmit path true;
                   CallHandleJidAndPodUid (pod_uid data) false] ++
                  handled StatusGatewayTimeout ++
                  [RemoveAll (filesPath_of h data);
                   CallDeleteContainer (pod_uid data)];
         store := delete (pod_uid data) j';
         statusCode := StatusInternalServerError |}
| MarshalFailed body rt data path out jid j' bytes e :
    ReadAll_Body r = (body, None) ->
    createRuntime (ContainerRuntime (Config h)) = inl rt ->
    json_Unmarshal env body = (data, None) ->
    forallb (mounts_ok h env data) (all_containers data) = true ->
    script_call h env rt data = (path, None) ->
    SLURMBatchSubmit env (Config h) path = (out, None) ->
    handleJidAndPodUid env (data_Pod data) (JIDs h) out (filesPath_of h data) =
      ((jid, None), j') ->
    json_Marshal env {| PodUID := pod_uid data; PodJID := jid |} = (bytes, Some e) ->
    Outcome h env r
      {| trace := through_loop h rt data ++
                  [script_event h env rt data true;
                   CallSLURMBatchSubmit path true;
                   CallHandleJidAndPodUid (pod_uid data) true;
                   CallMarshal false] ++
                  handled StatusInternalServerError;
         store := j'; statusCode := StatusInternalServerError |}
| Succeeded body rt data path out jid j' bytes :
    ReadAll_Body r = (body, None) ->
    createRuntime (ContainerRuntime (Config h)) = inl rt ->
    json_Unmarshal env body = (data, None) ->
    forallb (mounts_ok h env data) (all_containers data) = true ->
    script_call h env rt data = (path, None) ->
    SLURMBatchSubmit env (Config h) path = (out, None) ->
    handleJidAndPodUid env (data_Pod data) (JIDs h) out (filesPath_of h data) =
      ((jid, None), j') ->
    json_Marshal env {| PodUID := pod_uid data; PodJID := jid |} = (bytes, None) ->
    Outcome h env r
      {| trace := through_loop h rt data ++
                  [script_event h env rt data true;
                   CallSLURMBatchSubmit path true;
                   CallHandleJidAndPodUid (pod_uid data) true;
                   CallMarshal true;
                   WriteHeader StatusOK; Write bytes];
         store := j'; statusCode := StatusOK |}.

(** ** The size-token grammar, in the specification's words

    "a token matching <digits><optional unit> where unit is one of none,
    K, M, G (powers of 1024)". *)

Module Grammar.

Definition token (val ds u : string) : Prop :=
  val = ds +:+ u /\ ds <> EmptyString /\ Str.all_digits ds = true /\
  (u = EmptyString \/ u = "K" \/ u = "M" \/ u = "G").

(** The number a digit string denotes, by position. *)
Fixpoint digits_value (ds : string) : Z :=
  match ds with
  | EmptyString => 0
  | String c r => Str.digit_val c * 10 ^ Z.of_nat (String.length r) + digits_value r
  end.

Definition unit_exponent (u : string) : Z :=
  if String.eqb u "K" then 1
  else if String.eqb u "M" then 2
  else if String.eqb u "G" then 3
  else 0.

Definition bytes (ds u : string) : Z := digits_value ds * 1024 ^ unit_exponent u.

End Grammar.

(** ** The invariant of the aggregation loop *)

(** What holds between the variables of the loop at the top of every
    iteration: the committed ceilings and the auxiliary maxima equal the
    running limits, the running limits are not negative, and a flag
    that is still set means nothing was raised. *)
Record agg_inv (a : AggState) : Prop := {
  inv_cpu_committed : CPU (resourceLimits a) = cpuLimit a;
  inv_cpu_aux : maxCPULimit a = cpuLimit a;
  inv_cpu_nonneg : 0 <= cpuLimit a;
  inv_cpu_flag : isDefaultCPU a = true -> cpuLimit a = 0;
  inv_mem_committed : Memory (resourceLimits a) = memoryLimit a;
  inv_mem_aux : maxMemoryLimit a = memoryLimit a;
  inv_mem_nonneg : 0 <= memoryLimit a;
  inv_mem_flag : isDefaultRam a = true -> memoryLimit a = 0;
}.

(** ** The job-wide ceiling, in the specification's words

    "the maximum limit seen among containers that declared a non-zero
    limit, or exactly the default floor if none declared one". *)

Module Ceiling.

Definition declared (xs : list Z) : list Z :=
  List.filter (fun x => negb (x =? 0)) xs.

Definition max_of (xs : list Z) : Z := fold_right Z.max 0 xs.

Definition ceiling (floor : Z) (xs : list Z) : Z :=
  match declared xs with
  | [] => floor
  | d => max_of d
  end.

Definition default_used (xs : list Z) : bool :=
  match declared xs with
  | [] => true
  | _ => false
  end.

End Ceiling.

Definition cpu_limits (cs : list Container) : list Z := map cpuLimitFromContainer cs.
Definition memory_limits (cs : list Container) : list Z := map memoryLimitFromContainer cs.

(** ** Concrete inputs used in the examples *)

Module Sample.

Definition container (name : string) (cpu : QArith_base.Q) (mem : Z) : Container :=
  {| Name := name; Image := "docker://busybox"; Command := ["sleep"]; Args := ["1"];
     Limits_Cpu := cpu; Limits_Memory := mem |}.

(** No limit declared. *)
Definition undeclared : Container := container "a" (QArith_base.Qmake 0 1) 0.

(** Limits equal to the default floors: 1 CPU and 1 MiB. *)
Definition at_floor : Container := container "b" (QArith_base.Qmake 1 1) 1048576.

(** CPU 3, memory 2 MiB. *)
Definition big : Container := container "c" (QArith_base.Qmake 3 1) 2097152.

(** CPU 0.4, memory unset. *)
Definition fractional : Container := container "d" (QArith_base.Qmake 4 10) 0.

(** A container whose CPU limit (10E, 10^19) exceeds every [int64]. *)
Definition huge : Container :=
  container "e" (QArith_base.Qmake 10000000000000000000 1) 0.

Definition pod (init cs : list Container) : Pod :=
  {| Pod_ObjectMeta := {| meta_Name := "pod"; Namespace := "ns"; UID := "uid-1" |};
     InitContainers := init; Containers := cs |}.

Definition handler (runtime : string) : SidecarHandler :=
  {| Config := {| DataRootFolder := "/tmp/"; ContainerRuntime := runtime |};
     JIDs := ∅ |}.

Definition request : Request := {| ReadAll_Body := ("{}", None) |}.

Definition failed : string * option error := (EmptyString, Some (errors_New "failed")).

(** Collaborators that all succeed on the pod [p]; [mounts] is the
    mount fragment returned for every container. *)
Definition env_ok (p : Pod) (mounts : string) : Collaborators :=
  {| json_Unmarshal := fun _ => ({| data_Pod := p |}, None);
     prepareMounts := fun _ _ _ _ => (mounts, None);
     prepareEnvs := fun _ _ _ => ["--env"; "A=B"];
     prepareImage := fun _ _ image => image;
     prepareCommand := fun rt _ _ _ =>
       match rt with
       | SingularityRuntime => ["singularity"; "exec"]
       | EnrootRuntime => ["enroot"; "start"]
       end;
     produceSLURMScript := fun _ _ path _ _ _ _ _ => (path +:+ "/job.sh", None);
     SLURMBatchSubmit := fun _ _ => ("Submitted batch job 42", None);
     handleJidAndPodUid := fun pod j _ _ =>
       (("42", None), <[UID (Pod_ObjectMeta pod) := "42"]> j);
     deleteContainer_err := fun _ _ _ _ => None;
     json_Marshal := fun c => (PodUID c +:+ ":" +:+ PodJID c, None) |}.

(** The same, with one collaborator replaced by a failing one. *)

(** [prepareMounts] fails for the container named [name]. *)
Definition with_mounts_failing (name : string) (env : Collaborators) : Collaborators :=
  {| json_Unmarshal := json_Unmarshal env;
     prepareMounts := fun cfg d c path =>
       if String.eqb (Name c) name then failed else prepareMounts env cfg d c path;
     prepareEnvs := prepareEnvs env;
     prepareImage := prepareImage env; prepareCommand := prepareCommand env;
     produceSLURMScript := produceSLURMScript env;
     SLURMBatchSubmit := SLURMBatchSubmit env;
     handleJidAndPodUid := handleJidAndPodUid env;
     deleteContainer_err := deleteContainer_err env;
     json_Marshal := json_Marshal env |}.

Definition with_script_failing (env : Collaborators) : Collaborators :=
  {| json_Unmarshal := json_Unmarshal env;
     prepareMounts := prepareMounts env; prepareEnvs := prepareEnvs env;
     prepareImage := prepareImage env; prepareCommand := prepareCommand env;
     produceSLURMScript := fun _ _ _ _ _ _ _ _ => failed;
     SLURMBatchSubmit := SLURMBatchSubmit env;
     handleJidAndPodUid := handleJidAndPodUid env;
     deleteContainer_err := deleteContainer_err env;
     json_Marshal := json_Marshal env |}.

Definition with_submit_failing (env : Collaborators) : Collaborators :=
  {| json_Unmarshal := json_Unmarshal env;
     prepareMounts := prepareMounts env; prepareEnvs := prepareEnvs env;
     prepareImage := prepareImage env; prepareCommand := prepareCommand env;
     produceSLURMScript := produceSLURMScript env;
     SLURMBatchSubmit := fun _ _ => failed;
     handleJidAndPodUid := handleJidAndPodUid env;
     deleteContainer_err := deleteContainer_err env;
     json_Marshal := json_Marshal env |}.

(** Job-id extraction fails; the recorder may have touched the store. *)
Definition with_jid_failing (env : Collaborators) : Collaborators :=
  {| json_Unmarshal := json_Unmarshal env;
     prepareMounts := prepareMounts env; prepareEnvs := prepareEnvs env;
     prepareImage := prepareImage env; prepareCommand := prepareCommand env;
     produceSLURMScript := produceSLURMScript env;
     SLURMBatchSubmit := SLURMBatchSubmit env;
     handleJidAndPodUid := fun pod j out path =>
       (failed, snd (handleJidAndPodUid env pod j out path));
     deleteContainer_err := deleteContainer_err env;
     json_Marshal := json_Marshal env |}.

Definition with_marshal_failing (env : Collaborators) : Collaborators :=
  {| json_Unmarshal := json_Unmarshal env;
     prepareMounts := prepareMounts env; prepareEnvs := prepareEnvs env;
     prepareImage := prepareImage env; prepareCommand := prepareCommand env;
     produceSLURMScript := produceSLURMScript env;
     SLURMBatchSubmit := SLURMBatchSubmit env;
     handleJidAndPodUid := handleJidAndPodUid env;
     deleteContainer_err := deleteContainer_err env;
     json_Marshal := fun _ => failed |}.

Definition pod1 : Pod := pod [] [undeclared].

Definition path1 : string := "/tmp/ns-uid-1".

End Sample.

(** ** More readings of a trace *)

Definition is_header (e : Event) : bool :=
  match e with
  | WriteHeader _ => true
  | _ => false
  end.

Definition is_removal (e : Event) : bool :=
  match e with
  | RemoveAll _ => true
  | _ => false
  end.

Definition is_recording (e : Event) : bool :=
  match e with
  | CallHandleJidAndPodUid _ _ => true
  | _ => false
  end.

(** The failed calls after which the handler calls [os.RemoveAll]. *)
Definition cleanup_failure (e : Event) : bool :=
  match e with
  | CallPrepareMounts _ false | CallProduceSLURMScript _ _ _ _ false
  | CallSLURMBatchSubmit _ false | CallHandleJidAndPodUid _ false => true
  | _ => false
  end.

Definition is_ok_header (e : Event) : bool :=
  match e with
  | WriteHeader code => code =? StatusOK
  | _ => false
  end.

Definition limit_of (res : Resource) (c : Container) : Z :=
  match res with
  | ResCPU => cpuLimitFromContainer c
  | ResMemory => memoryLimitFromContainer c
  end.

Definition warning_about (res : Resource) (e : Event) : bool :=
  match e, res with
  | LogWarning ResCPU _, ResCPU | LogWarning ResMemory _, ResMemory => true
  | _, _ => false
  end.

Definition is_nil_list {A} (l : list A) : bool :=
  match l with
  | [] => true
  | _ :: _ => false
  end.

Definition flag_of (res : Resource) (a : AggState) : bool :=
  match res with
  | ResCPU => isDefaultCPU a
  | ResMemory => isDefaultRam a
  end.

(** What lines 167-177 append for the runtime [rt]: the mount fragment
    and the image for singularity, the stripped mount fragment and the
    container name for enroot. *)
Definition trailer (rt : Runtime) (mounts image : string) (container : Container)
    (uid : string) : list string :=
  match rt with
  | SingularityRuntime => [mounts; image]
  | EnrootRuntime => [ReplaceAll mounts ":ro" EmptyString; Name container +:+ uid]
  end.

Definition is_submission (e : Event) : bool :=
  match e with
  | CallSLURMBatchSubmit _ _ => true
  | _ => false
  end.

Definition is_marshal (e : Event) : bool :=
  match e with
  | CallMarshal _ => true
  | _ => false
  end.

(** Whether [createRuntime] accepts a name. *)
Definition selection_ok (name : string) : bool :=
  match createRuntime name with
  | inl _ => true
  | inr _ => false
  end.

(** The status codes passed to [h.handleError] in a run, in order. *)
Definition handleError_code (e : Event) : option Z :=
  match e with
  | CallHandleError code => Some code
  | _ => None
  end.

Definition handleError_codes (tr : list Event) : list Z :=
  omap handleError_code tr.

(** * Properties *)

(** Results of one call are equal: two equations on the same call are
    merged, and a contradiction between them closes the goal. *)
Ltac agree :=
  repeat match goal with
    | H1 : ?x = _, H2 : ?x = _ |- _ =>
        rewrite H1 in H2;
        first [discriminate H2 | injection H2; clear H2; intros; subst | clear H2]
    end.

(** ** parseMem *)

Section ParseMem.

Lemma is_digit_range c :
  Str.is_digit c = true -> 0 <= Str.digit_val c <= 9.
Proof.
  unfold Str.is_digit, Str.digit_val.
  rewrite andb_true_iff, !Nat.leb_le. lia.
Qed.

Lemma is_digit_not_sign c :
  Str.is_digit c = true -> Ascii.eqb c "+" = false /\ Ascii.eqb c "-" = false.
Proof.
  destruct c as [[] [] [] [] [] [] [] []]; vm_compute; intuition congruence.
Qed.

Lemma digits_value_nonneg ds :
  Str.all_digits ds = true -> 0 <= Grammar.digits_value ds.
Proof.
  induction ds as [|c r IH]; simpl; [lia|].
  rewrite andb_true_iff. intros [Hc Hr].
  pose proof (is_digit_range c Hc). specialize (IH Hr).
  assert (0 < 10 ^ Z.of_nat (String.length r)) by (apply Z.pow_pos_nonneg; lia).
  nia.
Qed.

Lemma span_digits_sound s ds r :
  Str.span_digits s = (ds, r) -> s = ds +:+ r /\ Str.all_digits ds = true.
Proof.
  revert ds r. induction s as [|c s IH]; simpl; intros ds r H.
  - inversion H; subst. auto.
  - destruct (Str.is_digit c) eqn:Hc.
    + destruct (Str.span_digits s) as [ds' r'] eqn:Hs.
      inversion H; subst. destruct (IH _ _ eq_refl) as [-> Hd].
      simpl. rewrite Hc, Hd. auto.
    + inversion H; subst. auto.
Qed.

Lemma span_digits_complete ds u :
  Str.all_digits ds = true ->
  (u = EmptyString \/ u = "K" \/ u = "M" \/ u = "G") ->
  Str.span_digits (ds +:+ u) = (ds, u).
Proof.
  intros Hd Hu. induction ds as [|c r IH]; simpl in *.
  - destruct Hu as [-> | [-> | [-> | ->]]]; reflexivity.
  - apply andb_true_iff in Hd as [Hc Hr]. rewrite Hc, (IH Hr). reflexivity.
Qed.

(** The accumulation of [ParseUint] computes the positional value as
    long as that value fits in 64 bits. *)
Lemma ParseUint_loop_value s0 ds : forall n,
  Str.all_digits ds = true -> 0 <= n ->
  n * 10 ^ Z.of_nat (String.length ds) + Grammar.digits_value ds <= maxUint64 ->
  strconv.ParseUint_loop s0 n ds =
    (n * 10 ^ Z.of_nat (String.length ds) + Grammar.digits_value ds, None).
Proof.
  induction ds as [|c r IH]; intros n Hd Hn Hfit.
  - simpl. f_equal. lia.
  - simpl in Hd. apply andb_true_iff in Hd as [Hc Hr].
    pose proof (is_digit_range c Hc) as Hdc.
    pose proof (digits_value_nonneg r Hr) as Hv.
    cbn [String.length Grammar.digits_value] in Hfit |- *.
    rewrite Nat2Z.inj_succ, Z.pow_succ_r in * by lia.
    set (p := 10 ^ Z.of_nat (String.length r)) in *.
    assert (Hp' : 0 < p) by (subst p; apply Z.pow_pos_nonneg; lia).
    assert (Hsmall : n * 10 + Str.digit_val c <= maxUint64) by nia.
    cbn [strconv.ParseUint_loop]. rewrite Hc. cbn [negb].
    assert (Hcut : (strconv.cutoff <=? n) = false).
    { apply Z.leb_gt. unfold strconv.cutoff, maxUint64 in *.
      change (2 ^ 64 - 1) with 18446744073709551615 in *.
      change (18446744073709551615 / 10 + 1) with 1844674407370955162. lia. }
    rewrite Hcut.
    assert (Hmod : (n * 10 + Str.digit_val c) mod 2 ^ 64 = n * 10 + Str.digit_val c).
    { apply Z.mod_small. unfold maxUint64 in Hsmall. lia. }
    rewrite Hmod.
    replace (n * 10 + Str.digit_val c <? n * 10) with false
      by (symmetry; apply Z.ltb_ge; lia).
    replace (maxUint64 <? n * 10 + Str.digit_val c) with false
      by (symmetry; apply Z.ltb_ge; lia).
    cbn [orb]. rewrite IH by (fold p; auto; nia).
    f_equal. fold p. ring.
Qed.

Lemma ParseInt_digits ds :
  ds <> EmptyString -> Str.all_digits ds = true -> Grammar.digits_value ds <= maxInt64 ->
  strconv.ParseInt ds = (Grammar.digits_value ds, None).
Proof.
  intros Hne Hd Hfit. destruct ds as [|c r]; [congruence|].
  pose proof Hd as Hd'. simpl in Hd'. apply andb_true_iff in Hd' as [Hc _].
  destruct (is_digit_not_sign c Hc) as [Hplus Hminus].
  pose proof (digits_value_nonneg _ Hd) as Hv.
  unfold strconv.ParseInt. rewrite Hplus, Hminus.
  unfold strconv.ParseUint.
  rewrite ParseUint_loop_value by (auto; unfold maxUint64, maxInt64 in *; lia).
  rewrite Z.mul_0_l, Z.add_0_l. cbn [negb andb].
  replace (2 ^ 63 <=? Grammar.digits_value (String c r)) with false
    by (symmetry; apply Z.leb_gt; unfold maxInt64 in Hfit; lia).
  reflexivity.
Qed.

Lemma wrap64_small z : minInt64 <= z <= maxInt64 -> wrap64 z = z.
Proof.
  unfold wrap64, minInt64, maxInt64. intros H.
  rewrite Z.mod_small by lia. lia.
Qed.

Lemma mul64_small a b : 0 <= a * b <= maxInt64 -> mul64 a b = a * b.
Proof.
  intros H. unfold mul64. apply wrap64_small. unfold minInt64. lia.
Qed.

Lemma is_unit_iff u :
  is_unit u = true <-> (u = EmptyString \/ u = "K" \/ u = "M" \/ u = "G").
Proof.
  unfold is_unit. rewrite !orb_true_iff, !String.eqb_eq. tauto.
Qed.

(** A token of the grammar is split by the regular expression into
    exactly its digits and its unit. *)
Lemma FindStringSubmatch_token val ds u :
  Grammar.token val ds u -> FindStringSubmatch val = [val; ds; u].
Proof.
  intros (-> & Hne & Hd & Hu). unfold FindStringSubmatch.
  rewrite span_digits_complete by assumption.
  destruct ds; [congruence|].
  apply is_unit_iff in Hu. rewrite Hu. reflexivity.
Qed.

Lemma FindStringSubmatch_match val :
  FindStringSubmatch val = [] \/
  exists ds u, Grammar.token val ds u /\ FindStringSubmatch val = [val; ds; u].
Proof.
  unfold FindStringSubmatch.
  destruct (Str.span_digits val) as [ds r] eqn:Hs.
  apply span_digits_sound in Hs as [Hval Hd].
  destruct ds as [|c ds]; [now left|].
  destruct (is_unit r) eqn:Hu; [|now left].
  right. exists (String c ds), r. split; [|reflexivity].
  repeat split; try assumption; [discriminate|]. now apply is_unit_iff.
Qed.

Lemma scale_K v :
  0 <= v -> v * 1024 <= maxInt64 -> mul64 v 1024 = v * 1024.
Proof. intros. apply mul64_small. lia. Qed.

Lemma scale_M v :
  0 <= v -> v * 1048576 <= maxInt64 ->
  mul64 (mul64 v 1024) 1024 = v * 1048576.
Proof.
  intros H0 H1. unfold maxInt64 in H1.
  rewrite (mul64_small v 1024) by (unfold maxInt64; lia).
  rewrite mul64_small by (unfold maxInt64; lia). lia.
Qed.

Lemma scale_G v :
  0 <= v -> v * 1073741824 <= maxInt64 ->
  mul64 (mul64 (mul64 v 1024) 1024) 1024 = v * 1073741824.
Proof.
  intros H0 H1. unfold maxInt64 in H1.
  rewrite (mul64_small v 1024) by (unfold maxInt64; lia).
  rewrite (mul64_small (v * 1024) 1024) by (unfold maxInt64; lia).
  rewrite mul64_small by (unfold maxInt64; lia). lia.
Qed.

(** C8. For a token [<digits><unit>] of the grammar whose byte count
    [digits * 1024^k] (k = 0, 1, 2, 3 for no unit, K, M, G) fits a signed
    64-bit integer, [parseMem] returns that byte count and no error; for a
    token outside the grammar it returns an error and the value 0. *)
Theorem parseMem_spec (val : string) :
  (forall ds u,
      Grammar.token val ds u -> Grammar.bytes ds u <= maxInt64 ->
      parseMem val = (Grammar.bytes ds u, None)) /\
  ((forall ds u, ~ Grammar.token val ds u) ->
      exists e, parseMem val = (0, Some e)).
Proof.
  split.
  - intros ds u Htok Hfit. unfold parseMem.
    rewrite (FindStringSubmatch_token _ _ _ Htok).
    change (negb (length [val; ds; u] =? 3)%nat) with false.
    change (nth 1 [val; ds; u] EmptyString) with ds.
    change (nth 2 [val; ds; u] EmptyString) with u.
    destruct Htok as (_ & Hne & Hd & Hu).
    pose proof (digits_value_nonneg _ Hd) as Hv.
    unfold Grammar.bytes in *.
    set (v := Grammar.digits_value ds) in *.
    destruct Hu as [-> | [-> | [-> | ->]]].
    + change (Grammar.unit_exponent EmptyString) with 0 in *.
      change (1024 ^ 0) with 1 in *.
      rewrite (ParseInt_digits _ Hne Hd) by (fold v; lia).
      fold v. change (String.eqb EmptyString "G") with false.
      change (String.eqb EmptyString "M") with false.
      change (String.eqb EmptyString "K") with false.
      cbv iota. f_equal. lia.
    + change (Grammar.unit_exponent "K") with 1 in *.
      change (1024 ^ 1) with 1024 in *.
      rewrite (ParseInt_digits _ Hne Hd) by (fold v; lia).
      fold v. change (String.eqb "K" "G") with false.
      change (String.eqb "K" "M") with false.
      change (String.eqb "K" "K") with true.
      cbv iota. now rewrite scale_K.
    + change (Grammar.unit_exponent "M") with 2 in *.
      change (1024 ^ 2) with 1048576 in *.
      rewrite (ParseInt_digits _ Hne Hd) by (fold v; lia).
      fold v. change (String.eqb "M" "G") with false.
      change (String.eqb "M" "M") with true.
      cbv iota. now rewrite scale_M.
    + change (Grammar.unit_exponent "G") with 3 in *.
      change (1024 ^ 3) with 1073741824 in *.
      rewrite (ParseInt_digits _ Hne Hd) by (fold v; lia).
      fold v. change (String.eqb "G" "G") with true.
      cbv iota. now rewrite scale_G.
  - intros Hnot. unfold parseMem.
    destruct (FindStringSubmatch_match val) as [-> | (ds & u & Htok & _)].
    + change (negb (length (@nil string) =? 3)%nat) with true.
      cbv iota. eauto.
    + now destruct (Hnot ds u).
Qed.

End ParseMem.

(** ** The aggregation of resource limits *)

Section Aggregation.

Lemma agg_inv_init : agg_inv agg_init.
Proof. constructor; cbn; auto; lia. Qed.

(** One iteration is a running maximum on each resource; the flag of a
    resource stays set exactly while no positive limit has been seen. *)
Lemma limits_step_spec c a :
  agg_inv a ->
  let a' := fst (limits_step c a) in
  agg_inv a' /\
  cpuLimit a' = Z.max (cpuLimit a) (cpuLimitFromContainer c) /\
  memoryLimit a' = Z.max (memoryLimit a) (memoryLimitFromContainer c) /\
  isDefaultCPU a' = isDefaultCPU a && (cpuLimitFromContainer c <=? 0) /\
  isDefaultRam a' = isDefaultRam a && (memoryLimitFromContainer c <=? 0).
Proof.
  intros [H1 H2 H3 H4 H5 H6 H7 H8].
  unfold limits_step, cpu_rule, mem_rule, int_of_int64.
  set (x := cpuLimitFromContainer c). set (m := memoryLimitFromContainer c).
  destruct a as [dc dr mc mm cl ml [rc rm]]; cbn in *. subst rc mc rm mm.
  destruct (x =? 0) eqn:Ex0, dc, (cl <? x) eqn:Ex; cbn;
    destruct (m =? 0) eqn:Em0, dr, (ml <? m) eqn:Em; cbn;
    repeat match goal with
      | H : (_ =? _) = true |- _ => apply Z.eqb_eq in H
      | H : (_ =? _) = false |- _ => apply Z.eqb_neq in H
      | H : (_ <? _) = true |- _ => apply Z.ltb_lt in H
      | H : (_ <? _) = false |- _ => apply Z.ltb_ge in H
      | H : true = true -> _ |- _ => specialize (H eq_refl)
      end;
    (split; [constructor; cbn; intros; try lia; try discriminate|]);
    repeat split;
    try (symmetry; apply Z.leb_le; lia);
    try (symmetry; apply Z.leb_gt; lia);
    try lia.
Qed.

Lemma aggregate_from_spec cs : forall a ws,
  agg_inv a ->
  let a' := fst (aggregate_from a ws cs) in
  agg_inv a' /\
  cpuLimit a' = fold_left Z.max (cpu_limits cs) (cpuLimit a) /\
  memoryLimit a' = fold_left Z.max (memory_limits cs) (memoryLimit a) /\
  isDefaultCPU a' = isDefaultCPU a && forallb (fun x => x <=? 0) (cpu_limits cs) /\
  isDefaultRam a' = isDefaultRam a && forallb (fun x => x <=? 0) (memory_limits cs).
Proof.
  induction cs as [|c cs IH]; intros a ws Ha; cbn [aggregate_from].
  - cbn. rewrite !andb_true_r. auto.
  - pose proof (limits_step_spec c a Ha) as Hstep.
    destruct (limits_step c a) as [a1 w1]. cbn [fst] in Hstep.
    destruct Hstep as (Ha1 & Hc & Hm & Hfc & Hfm).
    destruct (IH a1 (ws ++ w1) Ha1) as (Hinv & Hc' & Hm' & Hfc' & Hfm').
    cbn zeta in *. refine (conj Hinv (conj _ (conj _ (conj _ _)))).
    + rewrite Hc', Hc. reflexivity.
    + rewrite Hm', Hm. reflexivity.
    + rewrite Hfc', Hfc. cbn. now destruct (isDefaultCPU a), (cpuLimitFromContainer c <=? 0).
    + rewrite Hfm', Hfm. cbn. now destruct (isDefaultRam a), (memoryLimitFromContainer c <=? 0).
Qed.

Lemma fold_left_max_nonneg xs a :
  0 <= a -> fold_left Z.max xs a = Z.max a (Ceiling.max_of xs).
Proof.
  revert a. induction xs as [|x xs IH]; intros a Ha; cbn.
  - unfold Ceiling.max_of. cbn. lia.
  - rewrite IH by lia. unfold Ceiling.max_of. cbn. lia.
Qed.

Lemma max_of_nonneg xs : 0 <= Ceiling.max_of xs.
Proof. induction xs; unfold Ceiling.max_of in *; cbn; lia. Qed.

(** What the loop computes, for every container list: each ceiling is
    the running maximum of the limits over 0, the auxiliary variables
    agree with it, and a flag is set when no limit was positive. *)
Lemma aggregate_spec cs :
  let a := fst (aggregate cs) in
  resourceLimits a =
    {| CPU := Ceiling.max_of (cpu_limits cs);
       Memory := Ceiling.max_of (memory_limits cs) |} /\
  isDefaultCPU a = forallb (fun x => x <=? 0) (cpu_limits cs) /\
  isDefaultRam a = forallb (fun x => x <=? 0) (memory_limits cs).
Proof.
  unfold aggregate.
  destruct (aggregate_from_spec cs agg_init [] agg_inv_init)
    as ([H1 _ _ _ H5 _ _ _] & Hc & Hm & Hfc & Hfm).
  cbn zeta. rewrite Hfc, Hfm. cbn [agg_init isDefaultCPU isDefaultRam andb].
  split; [|split; reflexivity].
  destruct (resourceLimits (fst (aggregate_from agg_init [] cs))) as [rc rm].
  cbn in H1, H5. subst rc rm. rewrite Hc, Hm.
  rewrite !fold_left_max_nonneg by (cbn; lia).
  cbn [agg_init cpuLimit memoryLimit].
  pose proof (max_of_nonneg (cpu_limits cs)).
  pose proof (max_of_nonneg (memory_limits cs)).
  f_equal; lia.
Qed.

Lemma max_of_declared xs : Ceiling.max_of (Ceiling.declared xs) = Ceiling.max_of xs.
Proof.
  induction xs as [|x xs IH]; [reflexivity|].
  unfold Ceiling.declared, Ceiling.max_of in *. cbn.
  pose proof (max_of_nonneg xs) as Hn. unfold Ceiling.max_of in Hn.
  destruct (x =? 0) eqn:E; cbn; rewrite IH.
  - apply Z.eqb_eq in E. lia.
  - reflexivity.
Qed.

Lemma default_used_forallb xs :
  Forall (fun x => 0 <= x) xs ->
  Ceiling.default_used xs = forallb (fun x => x <=? 0) xs.
Proof.
  unfold Ceiling.default_used, Ceiling.declared.
  induction 1 as [|x xs Hx _ IH]; [reflexivity|]. cbn.
  destruct (x =? 0) eqn:E; cbn.
  - apply Z.eqb_eq in E. subst x. exact IH.
  - apply Z.eqb_neq in E. symmetry. apply andb_false_intro1, Z.leb_gt. lia.
Qed.

(** The part of the ceiling rule the loop does implement: once some
    container declares a limit (limits are not negative), each ceiling
    is the maximum declared limit and the flag is clear. *)
Lemma aggregate_declared cs :
  Forall (fun x => 0 <= x) (cpu_limits cs) ->
  Ceiling.default_used (cpu_limits cs) = false ->
  let a := fst (aggregate cs) in
  CPU (resourceLimits a) = Ceiling.ceiling 1 (cpu_limits cs) /\
  isDefaultCPU a = false.
Proof.
  intros Hpos Hdecl. destruct (aggregate_spec cs) as (Hrl & Hfc & _).
  cbn zeta. rewrite Hrl, Hfc, <- (default_used_forallb _ Hpos), Hdecl.
  split; [|reflexivity]. cbn [CPU].
  rewrite <- max_of_declared. unfold Ceiling.ceiling, Ceiling.default_used in *.
  destruct (Ceiling.declared (cpu_limits cs)); [discriminate|reflexivity].
Qed.

(** When no container declares a limit the ceiling is left at 0. *)
Lemma aggregate_undeclared cs :
  Ceiling.default_used (cpu_limits cs) = true ->
  Ceiling.default_used (memory_limits cs) = true ->
  resourceLimits (fst (aggregate cs)) = {| CPU := 0; Memory := 0 |}.
Proof.
  intros Hc Hm. destruct (aggregate_spec cs) as (-> & _).
  rewrite <- (max_of_declared (cpu_limits cs)), <- (max_of_declared (memory_limits cs)).
  unfold Ceiling.default_used in *.
  destruct (Ceiling.declared (cpu_limits cs)); [|discriminate].
  destruct (Ceiling.declared (memory_limits cs)); [|discriminate].
  reflexivity.
Qed.

(** C1, at a pod whose single container declares no limit.  Lines 127
    and 139 set the ceilings to the floors 1 and 1048576, lines 149-150
    overwrite them with the running limits, which are still 0: the loop
    ends with both ceilings 0 and both flags set, where the rule of the
    specification gives 1 and 1048576. *)
Theorem undeclared_pod_ceilings :
  let c := Sample.undeclared in
  let a := fst (aggregate [c]) in
  resourceLimits (fst (mem_rule c (fst (cpu_rule c agg_init)))) =
    {| CPU := 1; Memory := 1048576 |} /\
  resourceLimits a = {| CPU := 0; Memory := 0 |} /\
  isDefaultCPU a = true /\ isDefaultRam a = true /\
  Ceiling.ceiling 1 (cpu_limits [c]) = 1 /\
  Ceiling.ceiling 1048576 (memory_limits [c]) = 1048576.
Proof. vm_compute. repeat split. Qed.

(** C5, counterexample.  The first container declares no limit: the
    loop warns about it for both resources and both flags stay set.  The
    second declares exactly 1 CPU and 1048576 bytes, and after it both
    flags are cleared. *)
Theorem floor_tie_clears_flags :
  let a0 := fst (aggregate [Sample.undeclared]) in
  let a1 := fst (aggregate [Sample.undeclared; Sample.at_floor]) in
  snd (aggregate [Sample.undeclared]) =
    [LogWarning ResCPU "a"; LogWarning ResMemory "a"] /\
  isDefaultCPU a0 = true /\ isDefaultRam a0 = true /\
  cpuLimitFromContainer Sample.at_floor = 1 /\
  memoryLimitFromContainer Sample.at_floor = 1048576 /\
  isDefaultCPU a1 = false /\ isDefaultRam a1 = false.
Proof. vm_compute. repeat split. Qed.

Lemma max_of_perm xs ys : xs ≡ₚ ys -> Ceiling.max_of xs = Ceiling.max_of ys.
Proof.
  unfold Ceiling.max_of.
  induction 1 as [|x xs ys _ IH|x y xs|xs ys zs _ IH1 _ IH2]; cbn; lia.
Qed.

Lemma forallb_perm {A} (f : A -> bool) xs ys :
  xs ≡ₚ ys -> forallb f xs = forallb f ys.
Proof.
  induction 1 as [|x xs ys _ IH|x y xs|xs ys zs _ IH1 _ IH2]; cbn.
  - reflexivity.
  - now rewrite IH.
  - now destruct (f x), (f y).
  - congruence.
Qed.

(** C6. Reordering the containers of a pod changes neither the final CPU
    ceiling nor the final memory ceiling (nor the two default-used
    flags); the warnings are not part of the statement and do differ,
    see [warnings_depend_on_order]. *)
Theorem aggregate_permutation (cs cs' : list Container) :
  cs ≡ₚ cs' ->
  resourceLimits (fst (aggregate cs)) = resourceLimits (fst (aggregate cs')) /\
  isDefaultCPU (fst (aggregate cs)) = isDefaultCPU (fst (aggregate cs')) /\
  isDefaultRam (fst (aggregate cs)) = isDefaultRam (fst (aggregate cs')).
Proof.
  intros Hp.
  destruct (aggregate_spec cs) as (-> & -> & ->).
  destruct (aggregate_spec cs') as (-> & -> & ->).
  assert (Hc : cpu_limits cs ≡ₚ cpu_limits cs') by (now apply Permutation_map).
  assert (Hm : memory_limits cs ≡ₚ memory_limits cs') by (now apply Permutation_map).
  rewrite (max_of_perm _ _ Hc), (max_of_perm _ _ Hm).
  rewrite (forallb_perm _ _ _ Hc), (forallb_perm _ _ _ Hm). auto.
Qed.

Lemma aggregate_permutation_witness :
  [Sample.undeclared; Sample.big] ≡ₚ [Sample.big; Sample.undeclared] /\
  resourceLimits (fst (aggregate [Sample.undeclared; Sample.big])) =
    {| CPU := 3; Memory := 2097152 |} /\
  resourceLimits (fst (aggregate [Sample.big; Sample.undeclared])) =
    {| CPU := 3; Memory := 2097152 |}.
Proof.
  assert (Hp : [Sample.undeclared; Sample.big] ≡ₚ [Sample.big; Sample.undeclared])
    by apply perm_swap.
  split; [exact Hp|].
  destruct (aggregate_permutation _ _ Hp) as (<- & _).
  vm_compute. split; reflexivity.
Defined.

(** The warnings of the two orders differ: the undeclared container is
    warned about only when it comes before the one that declares. *)
Example warnings_depend_on_order :
  snd (aggregate [Sample.undeclared; Sample.big]) =
    [LogWarning ResCPU "a"; LogWarning ResMemory "a"] /\
  snd (aggregate [Sample.big; Sample.undeclared]) = [].
Proof. vm_compute. split; reflexivity. Qed.

(** Scenarios 1 and 2 of the specification. *)
Example scenario_fractional :
  let a := fst (aggregate [Sample.fractional]) in
  CPU (resourceLimits a) = 1 /\ isDefaultCPU a = false /\ isDefaultRam a = true.
Proof. vm_compute. repeat split. Qed.

Example scenario_two_containers :
  let a := fst (aggregate [Sample.container "x" (QArith_base.Qmake 0 1) 2097152;
                           Sample.container "y" (QArith_base.Qmake 3 1) 1048576]) in
  resourceLimits a = {| CPU := 3; Memory := 2097152 |} /\
  isDefaultCPU a = false /\ isDefaultRam a = false.
Proof. vm_compute. repeat split. Qed.

End Aggregation.

(** ** The loop over the containers *)

Section Loop.

Variables (h : SidecarHandler) (env : Collaborators) (rt : Runtime)
          (data : RetrievedPodData).

Let fp := filesPath_of h data.
Let body := loop_body h env rt data (Pod_ObjectMeta (data_Pod data)) fp.

Lemma loop_body_ok i c st s :
  mounts_ok h env data c = true ->
  body i c st s =
    (Next {| agg := fst (limits_step c (agg st));
             runtime_command_pod :=
               runtime_command_pod st ++ [command_of h env rt data i c] |},
     {| trace := trace s ++ body_events rt c (agg st);
        store := store s; statusCode := statusCode s |}).
Proof.
  unfold mounts_ok, body, loop_body, body_events, command_of. fold fp.
  destruct (limits_step c (agg st)) as [a w].
  destruct (prepareMounts env (Config h) data c fp) as [mounts [e|]];
    [discriminate|]. intros _.
  unfold bind, emit, emit_all, ret. cbn.
  rewrite <- !app_assoc. reflexivity.
Qed.

Lemma loop_body_fail i c st s :
  mounts_ok h env data c = false ->
  body i c st s =
    (Returned,
     {| trace := trace s ++ failure_events fp c (agg st);
        store := store s; statusCode := StatusInternalServerError |}).
Proof.
  unfold mounts_ok, body, loop_body, failure_events. fold fp.
  destruct (limits_step c (agg st)) as [a w].
  destruct (prepareMounts env (Config h) data c fp) as [mounts [e|]];
    [|discriminate]. intros _.
  unfold handleError, bind, emit, emit_all, set_statusCode, return_. cbn.
  rewrite <- !app_assoc. reflexivity.
Qed.

Lemma aggregate_from_fst cs : forall a ws,
  fst (aggregate_from a ws cs) = fst (aggregate_from a [] cs).
Proof.
  induction cs as [|c cs IH]; intros a ws; cbn; [reflexivity|].
  destruct (limits_step c a) as [a' w]. cbn. now rewrite (IH a' (ws ++ w)), (IH a' w).
Qed.

(** The loop runs to its end when no mount preparation fails. *)
Lemma range_ok cs : forall i st s,
  forallb (mounts_ok h env data) cs = true ->
  range_containers body i cs st s =
    (Next {| agg := fst (aggregate_from (agg st) [] cs);
             runtime_command_pod :=
               runtime_command_pod st ++ commands_from h env rt data i cs |},
     {| trace := trace s ++ loop_events rt (agg st) cs;
        store := store s; statusCode := statusCode s |}).
Proof.
  induction cs as [|c cs IH]; intros i st s Hok; cbn in Hok |- *.
  - unfold ret. rewrite !app_nil_r. now destruct st, s.
  - apply andb_true_iff in Hok as [Hc Hcs].
    unfold bind. rewrite (loop_body_ok _ _ _ _ Hc), (IH _ _ _ Hcs). cbn.
    destruct (limits_step c (agg st)) as [a' w] eqn:E. cbn.
    rewrite (aggregate_from_fst cs a' w), <- !app_assoc. reflexivity.
Qed.

(** The loop leaves the handler at the first mount preparation that
    fails. *)
Lemma range_fail cs1 c cs2 : forall i st s,
  forallb (mounts_ok h env data) cs1 = true ->
  mounts_ok h env data c = false ->
  range_containers body i (cs1 ++ c :: cs2) st s =
    (Returned,
     {| trace := trace s ++ loop_events rt (agg st) cs1 ++
                 failure_events fp c (fst (aggregate_from (agg st) [] cs1));
        store := store s; statusCode := StatusInternalServerError |}).
Proof.
  induction cs1 as [|c1 cs1 IH]; intros i st s Hok Hc; cbn in Hok |- *.
  - unfold bind. now rewrite (loop_body_fail _ _ _ _ Hc).
  - apply andb_true_iff in Hok as [Hc1 Hcs].
    unfold bind. rewrite (loop_body_ok _ _ _ _ Hc1), (IH _ _ _ Hcs Hc). cbn.
    destruct (limits_step c1 (agg st)) as [a' w] eqn:E. cbn.
    rewrite (aggregate_from_fst cs1 a' w), <- !app_assoc. reflexivity.
Qed.

Lemma first_failure (cs : list Container) :
  forallb (mounts_ok h env data) cs = true \/
  exists cs1 c cs2,
    cs = cs1 ++ c :: cs2 /\
    forallb (mounts_ok h env data) cs1 = true /\
    mounts_ok h env data c = false.
Proof.
  induction cs as [|c cs IH]; [now left|]. cbn.
  destruct (mounts_ok h env data c) eqn:Hc.
  - destruct IH as [IH | (cs1 & c' & cs2 & -> & H1 & H2)]; [now left|].
    right. exists (c :: cs1), c', cs2. cbn. now rewrite Hc, H1.
  - right. now exists [], c, cs.
Qed.

End Loop.

(** ** Every run of the handler ends in one of the nine outcomes *)

Section Run.

Variables (h : SidecarHandler) (env : Collaborators) (r : Request).

Ltac step :=
  unfold bind, emit, emit_all, ret, return_, set_statusCode, get_statusCode,
    get_store, put_store, handleError, deleteContainer, initial;
  cbn [trace store statusCode fst snd app is_nil agg runtime_command_pod
       loop_init].

Ltac finish :=
  step; rewrite <- ?app_assoc; cbn [app]; econstructor; eauto; fail.

Theorem run_outcome : Outcome h env r (run h env r).
Proof.
  unfold run, SubmitHandler.
  destruct (ReadAll_Body r) as [body [e|]] eqn:Hbody.
  { finish. }
  destruct (createRuntime (ContainerRuntime (Config h))) as [rt|e] eqn:Hrt.
  2:{ finish. }
  destruct (json_Unmarshal env body) as [data [e|]] eqn:Hdata.
  { finish. }
  change (InitContainers (data_Pod data) ++ Containers (data_Pod data))
    with (all_containers data).
  destruct (first_failure h env data (all_containers data))
    as [Hok | (cs1 & c & cs2 & Hsplit & Hok1 & Hc)].
  2:{ step. rewrite Hsplit, (range_fail h env rt data cs1 c cs2 _ _ _ Hok1 Hc).
      finish. }
  step. rewrite (range_ok h env rt data _ _ _ _ Hok). step.
  change (fst (aggregate_from agg_init [] (all_containers data)))
    with (final_agg data).
  change (commands_from h env rt data 0 (all_containers data))
    with (final_commands h env rt data).
  change (UID (Pod_ObjectMeta (data_Pod data))) with (pod_uid data).
  change (produceSLURMScript env (Config h) (pod_uid data) (filesPath_of h data)
            (Pod_ObjectMeta (data_Pod data)) (final_commands h env rt data)
            (resourceLimits (final_agg data)) (isDefaultCPU (final_agg data))
            (isDefaultRam (final_agg data)))
    with (script_call h env rt data).
  destruct (script_call h env rt data) as [path [e|]] eqn:Hscript.
  { finish. }
  destruct (SLURMBatchSubmit env (Config h) path) as [out [e|]] eqn:Hsubmit.
  { finish. }
  step.
  destruct (handleJidAndPodUid env (data_Pod data) (JIDs h) out (filesPath_of h data))
    as [[jid [e|]] j'] eqn:Hjid.
  { finish. }
  destruct (json_Marshal env {| PodUID := pod_uid data; PodJID := jid |})
    as [bytes [e|]] eqn:Hm.
  { finish. }
  step. change (negb (StatusOK =? StatusOK)) with false. finish.
Qed.

End Run.

(** ** Facts about traces *)

Section Traces.

Lemma limits_step_warnings c a :
  Forall (fun e => is_warning e = true) (snd (limits_step c a)).
Proof.
  unfold limits_step, cpu_rule, mem_rule.
  repeat match goal with
    | |- context [if ?b then _ else _] => destruct b
    end; cbn; repeat constructor.
Qed.

(** The iterations that do not fail produce container-level events
    only, none of them a failed mount preparation. *)
Lemma loop_events_class rt cs : forall a,
  Forall (fun e => container_level e = true /\ failed_mounts e = false)
         (loop_events rt a cs).
Proof.
  induction cs as [|c cs IH]; intros a; cbn [loop_events]; [constructor|].
  apply Forall_app. split; [|apply IH].
  unfold body_events. apply Forall_app. split.
  - eapply Forall_impl; [apply limits_step_warnings|].
    intros [] He; cbn in *; try discriminate; auto.
  - repeat constructor.
Qed.

Lemma loop_events_mounts rt cs : forall a c,
  In c cs -> In (CallPrepareMounts (Name c) true) (loop_events rt a cs).
Proof.
  induction cs as [|c' cs IH]; intros a c Hin; [destruct Hin|].
  destruct Hin as [->|Hin]; cbn [loop_events].
  - apply in_or_app. left. unfold body_events. apply in_or_app. right. now left.
  - apply in_or_app. right. now apply IH.
Qed.

Lemma failure_events_class fp c a e :
  In e (failure_events fp c a) ->
  is_warning e = true \/ e = CallPrepareMounts (Name c) false \/
  In e (handled StatusGatewayTimeout) \/ e = RemoveAll fp.
Proof.
  unfold failure_events. rewrite in_app_iff. intros [Hw|Hin].
  - left. pose proof (limits_step_warnings c a) as Hall.
    rewrite Forall_forall in Hall. now apply Hall, list_elem_of_In.
  - cbn in Hin. cbn. intuition auto.
Qed.

(** If the first part of a trace has no event of a kind, the first
    event of that kind lies after it. *)
Lemma split_after (P : Event -> bool) l1 : forall l2 pre e post,
  l1 ++ l2 = pre ++ e :: post ->
  Forall (fun x => P x = false) l1 -> P e = true ->
  exists pre', pre = l1 ++ pre' /\ l2 = pre' ++ e :: post.
Proof.
  induction l1 as [|x l1 IH]; intros l2 pre e post Heq Hall He.
  - exists pre. auto.
  - apply Forall_cons_iff in Hall as [Hx Hall].
    destruct pre as [|y pre]; cbn in Heq; injection Heq as -> Heq.
    + congruence.
    + destruct (IH _ _ _ _ Heq Hall He) as (pre' & -> & ->). now exists pre'.
Qed.

Lemma occurs_before_last (a b : Event) tr :
  a <> b -> ~ In a tr -> ~ occurs_before a b (tr ++ [a]).
Proof.
  intros Hab Hnot (l1 & l2 & l3 & Heq). revert l1 Heq.
  induction tr as [|x tr IH]; intros l1 Heq.
  - destruct l1 as [|y l1]; cbn in Heq; inversion Heq as [[Hy Heq']].
    + now destruct l2.
    + now destruct l1.
  - destruct l1 as [|y l1]; cbn in Heq; inversion Heq as [[Hy Heq']].
    + apply Hnot. now left.
    + apply (IH (fun H => Hnot (or_intror H)) l1 Heq').
Qed.

Lemma filter_none {A} (P : A -> bool) l :
  Forall (fun x => P x = false) l -> List.filter P l = [].
Proof.
  induction 1 as [|x l Hx _ IH]; cbn; [reflexivity|]. now rewrite Hx.
Qed.

Lemma loop_events_filter (P : Event -> bool) rt a cs :
  (forall e, container_level e = true -> P e = false) ->
  List.filter P (loop_events rt a cs) = [].
Proof.
  intros HP. apply filter_none.
  eapply Forall_impl; [apply loop_events_class|]. cbn. intros e [He _]. auto.
Qed.

Lemma warnings_filter (P : Event -> bool) c a :
  (forall e, container_level e = true -> P e = false) ->
  List.filter P (snd (limits_step c a)) = [].
Proof.
  intros HP. apply filter_none.
  eapply Forall_impl; [apply limits_step_warnings|]. cbn.
  intros [] He; cbn in He; try discriminate. now apply HP.
Qed.

End Traces.

(** ** Runtime selection *)

Section RuntimeSelection.

Lemma createRuntime_supported name :
  match createRuntime name with
  | inl _ => name = "singularity" \/ name = "enroot"
  | inr _ => name <> "singularity" /\ name <> "enroot"
  end.
Proof.
  unfold createRuntime.
  destruct (String.eqb name "singularity") eqn:E1.
  - left. now apply String.eqb_eq.
  - destruct (String.eqb name "enroot") eqn:E2.
    + right. now apply String.eqb_eq.
    + split; intros ->; discriminate.
Qed.

Ltac filter_trace :=
  unfold through_loop, failure_events, handled, error_response, script_event;
  rewrite ?List.filter_app;
  rewrite ?loop_events_filter by (intros []; cbn; congruence);
  rewrite ?warnings_filter by (intros []; cbn; congruence);
  cbn.

Lemma in_loop_prepare rt rt' n cs : forall a,
  In (CallPrepareCommand rt' n) (loop_events rt a cs) -> rt' = rt.
Proof.
  induction cs as [|c cs IH]; intros a; cbn [loop_events]; [intros []|].
  rewrite in_app_iff. intros [Hin | Hin]; [|now apply (IH _ Hin)].
  unfold body_events in Hin. apply in_app_iff in Hin as [Hin | Hin].
  - pose proof (limits_step_warnings c a) as Hall.
    rewrite Forall_forall in Hall. apply list_elem_of_In, Hall in Hin. discriminate.
  - cbn in Hin. destruct Hin as [Hin | [Hin | [Hin | [Hin | []]]]];
      try discriminate. now injection Hin as <- _.
Qed.

Lemma loop_events_prepare rt cs : forall a c,
  In c cs -> In (CallPrepareCommand rt (Name c)) (loop_events rt a cs).
Proof.
  induction cs as [|c' cs IH]; intros a c Hin; [destruct Hin|].
  destruct Hin as [->|Hin]; cbn [loop_events].
  - apply in_or_app. left. unfold body_events. apply in_or_app. right.
    cbn. auto.
  - apply in_or_app. right. now apply IH.
Qed.

(** C7. [createRuntime] succeeds exactly for "singularity" and "enroot".
    In every run of the handler the runtime is selected at most once, and
    every container-level event comes after a successful selection; when
    the configured name is not supported the run has no container-level
    event and the caller gets the error response with status 500.  A run
    whose body was read selects the runtime exactly once, with the result
    of [createRuntime] on the configured name; every command prefix of
    the run is built by the runtime that [createRuntime] returned, and it
    is built for every container when the pod is unmarshalled and all
    mount preparations succeed. *)
Theorem runtime_selection_fail_fast (h : SidecarHandler) (env : Collaborators)
    (r : Request) :
  (forall name,
      (exists rt, createRuntime name = inl rt) <->
      (name = "singularity" \/ name = "enroot")) /\
  (length (List.filter is_runtime_selection (trace (run h env r))) <= 1)%nat /\
  (forall pre e post,
      trace (run h env r) = pre ++ e :: post -> container_level e = true ->
      In (CallCreateRuntime (ContainerRuntime (Config h)) true) pre) /\
  (forall e,
      createRuntime (ContainerRuntime (Config h)) = inr e ->
      Forall (fun ev => container_level ev = false) (trace (run h env r)) /\
      response (run h env r) = error_response StatusInternalServerError) /\
  (forall body,
      ReadAll_Body r = (body, None) ->
      List.filter is_runtime_selection (trace (run h env r)) =
        [CallCreateRuntime (ContainerRuntime (Config h))
           (selection_ok (ContainerRuntime (Config h)))]) /\
  (forall rt n,
      In (CallPrepareCommand rt n) (trace (run h env r)) ->
      createRuntime (ContainerRuntime (Config h)) = inl rt) /\
  (forall body rt data c,
      ReadAll_Body r = (body, None) ->
      createRuntime (ContainerRuntime (Config h)) = inl rt ->
      json_Unmarshal env body = (data, None) ->
      forallb (mounts_ok h env data) (all_containers data) = true ->
      In c (all_containers data) ->
      In (CallPrepareCommand rt (Name c)) (trace (run h env r))).
Proof.
  split; [|split; [|split; [|split; [|split; [|split]]]]].
  - intros name. pose proof (createRuntime_supported name) as H.
    destruct (createRuntime name) as [rt|e]; split.
    + auto.
    + eauto.
    + intros [rt' Hrt]. discriminate.
    + intros [-> | ->]; destruct H; congruence.
  - generalize (run_outcome h env r). generalize (run h env r).
    intros s Ho. destruct Ho; cbn [trace]; filter_trace; lia.
  - generalize (run_outcome h env r). generalize (run h env r).
    intros s Ho pre ev post Heq Hev.
    assert (Hhead : forall rest,
               [CallReadAll true;
                CallCreateRuntime (ContainerRuntime (Config h)) true;
                CallUnmarshal true] ++ rest = pre ++ ev :: post ->
               In (CallCreateRuntime (ContainerRuntime (Config h)) true) pre).
    { intros rest Hrest.
      destruct (split_after container_level _ _ _ _ _ Hrest) as (pre' & -> & _);
        [repeat constructor | assumption | cbn; auto]. }
    destruct Ho; cbn [trace] in Heq;
      try (unfold through_loop in Heq; rewrite <- ?app_assoc in Heq;
           apply Hhead in Heq; exact Heq);
      exfalso;
      assert (Hin : In ev (pre ++ ev :: post)) by (apply in_elt);
      rewrite <- Heq in Hin; cbn in Hin;
      repeat (destruct Hin as [<- | Hin]; [discriminate|]); exact Hin.
  - intros e He. generalize (run_outcome h env r). unfold response.
    generalize (run h env r). intros s Ho.
    destruct Ho; try congruence; cbn [trace]; split;
      try (repeat constructor); reflexivity.
  - intros body0 Hbody. generalize (run_outcome h env r). generalize (run h env r).
    intros s Ho. unfold selection_ok.
    destruct Ho as [? ? Hb|? ? Hb Hrt|? ? ? ? Hb Hrt|? ? ? ? ? ? Hb Hrt|? ? ? ? ? Hb Hrt
                    |? ? ? ? ? ? Hb Hrt|? ? ? ? ? ? ? ? Hb Hrt|? ? ? ? ? ? ? ? ? Hb Hrt
                    |? ? ? ? ? ? ? ? Hb Hrt];
      try congruence; rewrite Hrt; cbn [trace]; filter_trace; reflexivity.
  - intros rt0 n. generalize (run_outcome h env r). generalize (run h env r).
    intros s Ho Hin.
    assert (Hloop : forall rt a cs rest,
               createRuntime (ContainerRuntime (Config h)) = inl rt ->
               (In (CallPrepareCommand rt0 n) rest -> False) ->
               In (CallPrepareCommand rt0 n)
                  ([CallReadAll true;
                    CallCreateRuntime (ContainerRuntime (Config h)) true;
                    CallUnmarshal true] ++ loop_events rt a cs ++ rest) ->
               createRuntime (ContainerRuntime (Config h)) = inl rt0).
    { intros rt a cs rest Hrt Hrest Hx. rewrite !in_app_iff in Hx. cbn [In] in Hx.
      destruct Hx as [[Hx | [Hx | [Hx | []]]] | [Hx | Hx]]; try discriminate.
      - apply in_loop_prepare in Hx. congruence.
      - now destruct (Hrest Hx). }
    destruct Ho as [? ? Hb|? ? Hb Hrt|? ? ? ? Hb Hrt|? ? ? ? ? ? Hb Hrt|? ? ? ? ? Hb Hrt
                    |? ? ? ? ? ? Hb Hrt|? ? ? ? ? ? ? ? Hb Hrt|? ? ? ? ? ? ? ? ? Hb Hrt
                    |? ? ? ? ? ? ? ? Hb Hrt];
      cbn [trace] in Hin.
    1-3: exfalso; unfold handled, error_response in Hin; cbn [In app] in Hin;
      repeat (destruct Hin as [Hin | Hin]; [discriminate Hin|]); exact Hin.
    + apply (Hloop _ _ _ _ Hrt) in Hin; [exact Hin|].
      intros Hx. apply failure_events_class in Hx as [Hw | [Hm | [Hr | Hr]]];
        try discriminate.
      unfold handled, error_response in Hr. cbn [In] in Hr.
      repeat (destruct Hr as [Hr | Hr]; [discriminate Hr|]). exact Hr.
    + unfold through_loop in Hin. rewrite <- app_assoc in Hin.
      apply (Hloop _ _ _ _ Hrt) in Hin; [exact Hin|].
      unfold script_event, handled, error_response. cbn [In app]. intros Hx.
      repeat (destruct Hx as [Hx | Hx]; [discriminate Hx|]). exact Hx.
    + unfold through_loop in Hin. rewrite <- app_assoc in Hin.
      apply (Hloop _ _ _ _ Hrt) in Hin; [exact Hin|].
      unfold script_event, handled, error_response. cbn [In app]. intros Hx.
      repeat (destruct Hx as [Hx | Hx]; [discriminate Hx|]). exact Hx.
    + unfold through_loop in Hin. rewrite <- app_assoc in Hin.
      apply (Hloop _ _ _ _ Hrt) in Hin; [exact Hin|].
      unfold script_event, handled, error_response. cbn [In app]. intros Hx.
      repeat (destruct Hx as [Hx | Hx]; [discriminate Hx|]). exact Hx.
    + unfold through_loop in Hin. rewrite <- app_assoc in Hin.
      apply (Hloop _ _ _ _ Hrt) in Hin; [exact Hin|].
      unfold script_event, handled, error_response. cbn [In app]. intros Hx.
      repeat (destruct Hx as [Hx | Hx]; [discriminate Hx|]). exact Hx.
    + unfold through_loop in Hin. rewrite <- app_assoc in Hin.
      apply (Hloop _ _ _ _ Hrt) in Hin; [exact Hin|].
      unfold script_event, handled, error_response. cbn [In app]. intros Hx.
      repeat (destruct Hx as [Hx | Hx]; [discriminate Hx|]). exact Hx.
  - intros body0 rt0 data0 c Hbody Hrt0 Hdata Hall Hc.
    generalize (run_outcome h env r). generalize (run h env r). intros s Ho.
    assert (Hin : forall rest,
               In (CallPrepareCommand rt0 (Name c))
                  (through_loop h rt0 data0 ++ rest)).
    { intros rest. apply in_or_app. left. unfold through_loop.
      apply in_or_app. right. now apply loop_events_prepare. }
    destruct Ho as [? ? Hb|? ? Hb Hrt|? ? ? ? Hb Hrt Hd|? ? ? ? ? ? Hb Hrt Hd Hsplit Hok1 Hbad
                    |? ? ? ? ? Hb Hrt Hd|? ? ? ? ? ? Hb Hrt Hd|? ? ? ? ? ? ? ? Hb Hrt Hd
                    |? ? ? ? ? ? ? ? ? Hb Hrt Hd|? ? ? ? ? ? ? ? Hb Hrt Hd];
      rewrite Hbody in Hb; try discriminate Hb; injection Hb as <-;
      rewrite Hrt0 in Hrt; try discriminate Hrt; injection Hrt as <-;
      rewrite Hdata in Hd; try discriminate Hd; injection Hd as <-;
      cbn [trace]; try apply Hin.
    exfalso. rewrite Hsplit, forallb_app in Hall. cbn [forallb] in Hall.
    rewrite Hbad in Hall. rewrite andb_false_r in Hall. discriminate.
Qed.

End RuntimeSelection.

(** ** Staging of the side effects *)

Section Staging.

Lemma in_loop_events rt a cs e :
  In e (loop_events rt a cs) -> container_level e = true /\ failed_mounts e = false.
Proof.
  intros Hin. pose proof (loop_events_class rt cs a) as Hall.
  rewrite Forall_forall in Hall. now apply Hall, list_elem_of_In.
Qed.

Lemma in_through_loop h rt data e :
  In e (through_loop h rt data) ->
  e = CallReadAll true \/
  e = CallCreateRuntime (ContainerRuntime (Config h)) true \/
  e = CallUnmarshal true \/
  (container_level e = true /\ failed_mounts e = false).
Proof.
  unfold through_loop. rewrite in_app_iff. cbn [In].
  intros [[<- | [<- | [<- | []]]] | Hin]; auto.
  right. right. right. eapply in_loop_events, Hin.
Qed.

Lemma through_loop_quiet (P : Event -> bool) h rt data :
  (forall e, container_level e = true -> P e = false) ->
  P (CallReadAll true) = false ->
  P (CallCreateRuntime (ContainerRuntime (Config h)) true) = false ->
  P (CallUnmarshal true) = false ->
  Forall (fun e => P e = false) (through_loop h rt data).
Proof.
  intros HP H1 H2 H3. apply Forall_forall. intros e He.
  apply list_elem_of_In, in_through_loop in He.
  destruct He as [-> | [-> | [-> | [He _]]]]; auto.
Qed.

Lemma container_not_scheduler e :
  container_level e = true -> scheduler_visible e = false.
Proof. now destruct e. Qed.

(** The events of a run that ends at a failed mount preparation. *)
Lemma in_mounts_failed h rt fp cs1 c a e :
  In e ([CallReadAll true; CallCreateRuntime (ContainerRuntime (Config h)) true;
         CallUnmarshal true] ++ loop_events rt agg_init cs1 ++
        failure_events fp c a) ->
  scheduler_visible e = false /\
  (failed_mounts e = true -> e = CallPrepareMounts (Name c) false).
Proof.
  rewrite !in_app_iff. cbn [In].
  intros [[<- | [<- | [<- | []]]] | [Hin | Hin]]; try (split; [reflexivity|discriminate]).
  - apply in_loop_events in Hin as [H1 H2].
    split; [now apply container_not_scheduler | congruence].
  - apply failure_events_class in Hin as [Hw | [-> | [Hr | ->]]].
    + destruct e; try discriminate. split; [reflexivity|discriminate].
    + auto.
    + cbn in Hr. destruct Hr as [<- | [<- | [<- | []]]]; split; (reflexivity || discriminate).
    + split; [reflexivity|discriminate].
Qed.

(** C4. In every run of the handler, a scheduler-visible event (script
    generation or submission) is preceded by a successful mount
    preparation for every container of the pod.  If a mount preparation
    fails, the working directory is removed after it, the run has no
    scheduler-visible event, and the job-tracking store is the one the
    handler started with. *)
Theorem staged_side_effects (h : SidecarHandler) (env : Collaborators)
    (r : Request) :
  (forall pre e post,
      trace (run h env r) = pre ++ e :: post -> scheduler_visible e = true ->
      exists body data,
        ReadAll_Body r = (body, None) /\
        json_Unmarshal env body = (data, None) /\
        forall c, In c (all_containers data) ->
          mounts_ok h env data c = true /\
          In (CallPrepareMounts (Name c) true) pre) /\
  (forall name,
      In (CallPrepareMounts name false) (trace (run h env r)) ->
      exists body data,
        ReadAll_Body r = (body, None) /\
        json_Unmarshal env body = (data, None) /\
        occurs_before (CallPrepareMounts name false)
          (RemoveAll (filesPath_of h data)) (trace (run h env r)) /\
        Forall (fun e => scheduler_visible e = false) (trace (run h env r)) /\
        store (run h env r) = JIDs h).
Proof.
  split.
  - generalize (run_outcome h env r). generalize (run h env r).
    intros s Ho pre ev post Heq Hev.
    assert (Hin : In ev (trace s)) by (rewrite Heq; apply in_elt).
    assert (Hloop : forall body rt data rest,
               ReadAll_Body r = (body, None) ->
               json_Unmarshal env body = (data, None) ->
               forallb (mounts_ok h env data) (all_containers data) = true ->
               through_loop h rt data ++ rest = pre ++ ev :: post ->
               exists body data,
                 ReadAll_Body r = (body, None) /\
                 json_Unmarshal env body = (data, None) /\
                 forall c, In c (all_containers data) ->
                   mounts_ok h env data c = true /\
                   In (CallPrepareMounts (Name c) true) pre).
    { intros body rt data rest Hb Hd Hok Hrest.
      exists body, data. split; [assumption|]. split; [assumption|].
      intros c Hc. split.
      - rewrite forallb_forall in Hok. now apply Hok.
      - destruct (split_after scheduler_visible _ _ _ _ _ Hrest) as (pre' & -> & _).
        + apply through_loop_quiet; auto using container_not_scheduler.
        + assumption.
        + apply in_or_app. left. unfold through_loop. apply in_or_app. right.
          now apply loop_events_mounts. }
    destruct Ho; cbn [trace] in Heq, Hin; eauto.
    + cbn in Hin. repeat (destruct Hin as [<- | Hin]; [discriminate|]). destruct Hin.
    + cbn in Hin. repeat (destruct Hin as [<- | Hin]; [discriminate|]). destruct Hin.
    + cbn in Hin. repeat (destruct Hin as [<- | Hin]; [discriminate|]). destruct Hin.
    + apply in_mounts_failed in Hin as [Hq _]. congruence.
  - intros name. generalize (run_outcome h env r). generalize (run h env r).
    intros s Ho Hin.
    assert (Hno : forall rt data rest,
               In (CallPrepareMounts name false) (through_loop h rt data ++ rest) ->
               In (CallPrepareMounts name false) rest).
    { intros rt data rest H. apply in_app_iff in H as [H | H]; [|assumption].
      apply in_through_loop in H as [H | [H | [H | [_ H]]]]; discriminate. }
    destruct Ho as [| | |body rt data cs1 c cs2 Hb Hrt Hd Hsplit Hok1 Hc| | | | |];
      cbn [trace store] in *.
    1-3: exfalso; unfold handled, error_response in Hin; cbn [In app] in Hin;
      repeat (destruct Hin as [Hin | Hin]; [discriminate Hin|]); exact Hin.
    2-6: exfalso; apply Hno in Hin;
      unfold script_event, handled, error_response in Hin; cbn [In app] in Hin;
      repeat (destruct Hin as [Hin | Hin]; [discriminate Hin|]); exact Hin.
    exists body, data. split; [assumption|]. split; [assumption|].
    pose proof (in_mounts_failed _ _ _ _ _ _ _ Hin) as [_ Hname].
    specialize (Hname eq_refl). injection Hname as ->.
    split; [|split; [|reflexivity]].
    + unfold occurs_before, failure_events.
      exists ([CallReadAll true; CallCreateRuntime (ContainerRuntime (Config h)) true;
               CallUnmarshal true] ++ loop_events rt agg_init cs1 ++
              snd (limits_step c (fst (aggregate cs1)))),
             (handled StatusGatewayTimeout), [].
      rewrite <- !app_assoc. reflexivity.
    + apply Forall_forall. intros e He.
      apply list_elem_of_In, in_mounts_failed in He. tauto.
Qed.

End Staging.

(** ** What the caller is told *)

Section Response.

Lemma existsb_none {A} (P : A -> bool) l :
  Forall (fun x => P x = false) l -> existsb P l = false.
Proof.
  induction 1 as [|x l Hx _ IH]; cbn; [reflexivity|]. now rewrite Hx.
Qed.

Lemma existsb_loop_events (P : Event -> bool) rt a cs :
  (forall e, container_level e = true -> failed_mounts e = false -> P e = false) ->
  existsb P (loop_events rt a cs) = false.
Proof.
  intros HP. apply existsb_none.
  eapply Forall_impl; [apply loop_events_class|]. cbn. intros e [H1 H2]. auto.
Qed.

Lemma existsb_warnings (P : Event -> bool) c a :
  (forall res name, P (LogWarning res name) = false) ->
  existsb P (snd (limits_step c a)) = false.
Proof.
  intros HP. apply existsb_none.
  eapply Forall_impl; [apply limits_step_warnings|]. cbn.
  intros [] He; cbn in He; try discriminate. apply HP.
Qed.

Ltac side :=
  intros;
  repeat match goal with
    | e : Event |- _ => destruct e
    | b : bool |- _ => destruct b
    end; cbn in *; congruence.

(** Evaluates a classifier over the trace of an outcome. *)
Ltac eval_trace :=
  unfold response, through_loop, failure_events, handled, error_response, script_event;
  cbn [trace store statusCode];
  rewrite ?existsb_app, ?List.filter_app;
  rewrite ?existsb_loop_events by side;
  rewrite ?existsb_warnings by side;
  rewrite ?loop_events_filter by side;
  rewrite ?warnings_filter by side;
  cbn [existsb List.filter app orb is_response gateway_failure internal_failure
       script_failure jid_failure is_cancellation].

Lemma omap_none {A B} (f : A -> option B) l :
  Forall (fun x => f x = None) l -> omap f l = [].
Proof.
  induction 1 as [|x l Hx _ IH]; cbn; [reflexivity|]. now rewrite Hx.
Qed.

Lemma codes_loop_events rt a cs : handleError_codes (loop_events rt a cs) = [].
Proof.
  apply omap_none. eapply Forall_impl; [apply loop_events_class|]. cbn.
  intros [] [H1 H2]; cbn in *; congruence.
Qed.

Lemma codes_warnings c a : handleError_codes (snd (limits_step c a)) = [].
Proof.
  apply omap_none. eapply Forall_impl; [apply limits_step_warnings|]. cbn.
  intros [] He; cbn in *; congruence.
Qed.

(** The status codes passed to [h.handleError] in the trace of an outcome. *)
Ltac eval_codes :=
  unfold handleError_codes, through_loop, failure_events, handled, error_response,
    script_event;
  cbn [trace store statusCode];
  rewrite ?omap_app;
  fold handleError_codes;
  rewrite ?codes_loop_events, ?codes_warnings;
  cbn [omap list_omap handleError_code app].

(** C10. What the handler reports is the status it passes to
    [h.handleError], and each failure is given by the result of the call
    that fails.  When the pod cannot be unmarshalled, when the mounts of a
    container cannot be prepared, when the submission fails or when the
    job id cannot be recorded, the handler reports once, with status 504,
    and its variable [statusCode] holds 500.  When the body cannot be
    read, the runtime name is not supported or the response cannot be
    marshalled, it reports once, with status 500.  Status 500 is reported
    after no other failure. *)
Theorem reported_status (h : SidecarHandler) (env : Collaborators) (r : Request) :
  let s := run h env r in
  (forall body rt data e,
      ReadAll_Body r = (body, None) ->
      createRuntime (ContainerRuntime (Config h)) = inl rt ->
      json_Unmarshal env body = (data, Some e) ->
      handleError_codes (trace s) = [StatusGatewayTimeout] /\
      statusCode s = StatusInternalServerError) /\
  (forall body rt data c,
      ReadAll_Body r = (body, None) ->
      createRuntime (ContainerRuntime (Config h)) = inl rt ->
      json_Unmarshal env body = (data, None) ->
      In c (all_containers data) ->
      mounts_ok h env data c = false ->
      handleError_codes (trace s) = [StatusGatewayTimeout] /\
      statusCode s = StatusInternalServerError) /\
  (forall body rt data path out e,
      ReadAll_Body r = (body, None) ->
      createRuntime (ContainerRuntime (Config h)) = inl rt ->
      json_Unmarshal env body = (data, None) ->
      forallb (mounts_ok h env data) (all_containers data) = true ->
      script_call h env rt data = (path, None) ->
      SLURMBatchSubmit env (Config h) path = (out, Some e) ->
      handleError_codes (trace s) = [StatusGatewayTimeout] /\
      statusCode s = StatusInternalServerError) /\
  (forall body rt data path out jid e j',
      ReadAll_Body r = (body, None) ->
      createRuntime (ContainerRuntime (Config h)) = inl rt ->
      json_Unmarshal env body = (data, None) ->
      forallb (mounts_ok h env data) (all_containers data) = true ->
      script_call h env rt data = (path, None) ->
      SLURMBatchSubmit env (Config h) path = (out, None) ->
      handleJidAndPodUid env (data_Pod data) (JIDs h) out (filesPath_of h data) =
        ((jid, Some e), j') ->
      handleError_codes (trace s) = [StatusGatewayTimeout] /\
      statusCode s = StatusInternalServerError) /\
  (forall body e,
      ReadAll_Body r = (body, Some e) ->
      handleError_codes (trace s) = [StatusInternalServerError] /\
      statusCode s = StatusInternalServerError) /\
  (forall body e,
      ReadAll_Body r = (body, None) ->
      createRuntime (ContainerRuntime (Config h)) = inr e ->
      handleError_codes (trace s) = [StatusInternalServerError] /\
      statusCode s = StatusInternalServerError) /\
  (forall body rt data path out jid j' bytes e,
      ReadAll_Body r = (body, None) ->
      createRuntime (ContainerRuntime (Config h)) = inl rt ->
      json_Unmarshal env body = (data, None) ->
      forallb (mounts_ok h env data) (all_containers data) = true ->
      script_call h env rt data = (path, None) ->
      SLURMBatchSubmit env (Config h) path = (out, None) ->
      handleJidAndPodUid env (data_Pod data) (JIDs h) out (filesPath_of h data) =
        ((jid, None), j') ->
      json_Marshal env {| PodUID := pod_uid data; PodJID := jid |} = (bytes, Some e) ->
      handleError_codes (trace s) = [StatusInternalServerError] /\
      statusCode s = StatusInternalServerError) /\
  (In StatusInternalServerError (handleError_codes (trace s)) ->
      (exists body e, ReadAll_Body r = (body, Some e)) \/
      (exists body e,
          ReadAll_Body r = (body, None) /\
          createRuntime (ContainerRuntime (Config h)) = inr e) \/
      (exists body rt data path out jid j' bytes e,
          ReadAll_Body r = (body, None) /\
          createRuntime (ContainerRuntime (Config h)) = inl rt /\
          json_Unmarshal env body = (data, None) /\
          forallb (mounts_ok h env data) (all_containers data) = true /\
          script_call h env rt data = (path, None) /\
          SLURMBatchSubmit env (Config h) path = (out, None) /\
          handleJidAndPodUid env (data_Pod data) (JIDs h) out (filesPath_of h data) =
            ((jid, None), j') /\
          json_Marshal env {| PodUID := pod_uid data; PodJID := jid |} =
            (bytes, Some e))).
Proof.
  cbv zeta. generalize (run_outcome h env r). generalize (run h env r).
  intros s Ho.
  assert (Hmounts : forall data c,
             In c (all_containers data) -> mounts_ok h env data c = false ->
             forallb (mounts_ok h env data) (all_containers data) = true -> False).
  { intros data c Hin Hbad Hall. rewrite forallb_forall in Hall.
    rewrite (Hall c Hin) in Hbad. discriminate. }
  assert (Hsplit : forall data cs1 c cs2,
             all_containers data = cs1 ++ c :: cs2 ->
             mounts_ok h env data c = false ->
             forallb (mounts_ok h env data) (all_containers data) = true -> False).
  { intros data cs1 c cs2 Heq. apply Hmounts. rewrite Heq.
    apply in_or_app. right. now left. }
  destruct Ho; eval_codes; repeat split; intros; agree;
    try reflexivity;
    try (exfalso; eapply Hmounts; eassumption);
    try (exfalso; eapply Hsplit; eassumption);
    try (match goal with
         | Hin : In StatusInternalServerError _ |- _ =>
             cbn [In] in Hin;
             repeat match type of Hin with
               | _ \/ _ => destruct Hin as [Hin | Hin]; [try discriminate Hin|]
               end;
             try contradiction
         end).
  - left. eauto.
  - right. left. eauto.
  - right. right. do 9 eexists. repeat split; eassumption.
Qed.

(** What the caller can receive: nothing, the error response with
    status 500 or 504, or status 200 with the marshalled pair. *)
Lemma response_shapes (h : SidecarHandler) (env : Collaborators) (r : Request) :
  let s := run h env r in
  (response s = [] /\ existsb script_failure (trace s) = true) \/
  response s = error_response StatusInternalServerError \/
  response s = error_response StatusGatewayTimeout \/
  (exists bytes, response s = [WriteHeader StatusOK; Write bytes]).
Proof.
  cbv zeta. generalize (run_outcome h env r). generalize (run h env r).
  intros s Ho. destruct Ho; eval_trace; eauto 6.
Qed.

(** A failed script generation ends the run without any write to the
    response writer. *)
Lemma script_failure_silent (h : SidecarHandler) (env : Collaborators) (r : Request) :
  let s := run h env r in
  existsb script_failure (trace s) = true ->
  response s = [] /\ statusCode s = StatusOK.
Proof.
  cbv zeta. generalize (run_outcome h env r). generalize (run h env r).
  intros s Ho. destruct Ho; eval_trace; intros Hev;
    try discriminate Hev; split; reflexivity.
Qed.

(** C2, at a request whose script generation fails: the handler logs
    the error, removes the working directory and returns; nothing is
    written to the response writer, neither the success shape nor the
    error shape. *)
Theorem script_failure_no_response :
  let s := run (Sample.handler "singularity")
               (Sample.with_script_failing (Sample.env_ok Sample.pod1 "--bind /a:/a"))
               Sample.request in
  existsb script_failure (trace s) = true /\
  response s = [] /\
  last (trace s) = Some (RemoveAll Sample.path1).
Proof. vm_compute. repeat split. Qed.

(** C3 as stated fails: at a request whose job-id extraction fails after
    a successful submission, the cancellation does not come before the
    removal of the working directory. *)
Lemma cancellation_not_before_removal :
  let s := run (Sample.handler "singularity")
               (Sample.with_jid_failing (Sample.env_ok Sample.pod1 "--bind /a:/a"))
               Sample.request in
  existsb jid_failure (trace s) = true /\
  In (CallSLURMBatchSubmit "/tmp/ns-uid-1/job.sh" true) (trace s) /\
  ~ occurs_before (CallDeleteContainer "uid-1") (RemoveAll Sample.path1) (trace s).
Proof.
  cbv zeta. split; [vm_compute; reflexivity|]. split.
  - vm_compute. tauto.
  - match goal with |- ~ occurs_before ?a ?b (trace ?s) =>
      assert (Hlast : trace s = removelast (trace s) ++ [a])
        by (vm_compute; reflexivity)
    end.
    rewrite Hlast. apply occurs_before_last; [discriminate|].
    vm_compute. intros Hin.
    repeat (destruct Hin as [Hin | Hin]; [discriminate Hin|]). exact Hin.
Qed.

(** C3, amended. If the job-id recording fails (the submission has then
    succeeded), [deleteContainer] is called exactly once, with the pod's
    identifier, after the handler has removed the working directory;
    the job-tracking store then has no entry for the pod, and the caller
    is sent the error response. *)
Theorem jid_failure_compensation (h : SidecarHandler) (env : Collaborators)
    (r : Request) :
  let s := run h env r in
  existsb jid_failure (trace s) = true ->
  exists body data path,
    ReadAll_Body r = (body, None) /\
    json_Unmarshal env body = (data, None) /\
    In (CallSLURMBatchSubmit path true) (trace s) /\
    List.filter is_cancellation (trace s) = [CallDeleteContainer (pod_uid data)] /\
    occurs_before (RemoveAll (filesPath_of h data))
      (CallDeleteContainer (pod_uid data)) (trace s) /\
    store s !! pod_uid data = None /\
    response s = error_response StatusGatewayTimeout.
Proof.
  cbv zeta. generalize (run_outcome h env r). generalize (run h env r).
  intros s Ho.
  destruct Ho as [| | | | | |body rt data path out jid e j' Hb Hrt Hd Hok Hs Hsub Hj| |];
    intros Hev;
    try (revert Hev; eval_trace; intros Hev; discriminate Hev).
  exists body, data, path. split; [assumption|]. split; [assumption|].
  split; [|split; [|split; [|split]]].
  - cbn [trace]. apply in_or_app. right. cbn. auto.
  - eval_trace. reflexivity.
  - cbn [trace]. unfold occurs_before.
    exists (through_loop h rt data ++
            [script_event h env rt data true; CallSLURMBatchSubmit path true;
             CallHandleJidAndPodUid (pod_uid data) false] ++
            handled StatusGatewayTimeout), [], [].
    rewrite <- !app_assoc. reflexivity.
  - cbn [store]. apply lookup_delete_eq.
  - eval_trace. reflexivity.
Qed.

Lemma jid_failure_compensation_witness :
  let s := run (Sample.handler "singularity")
               (Sample.with_jid_failing (Sample.env_ok Sample.pod1 "--bind /a:/a"))
               Sample.request in
  existsb jid_failure (trace s) = true /\
  store s !! "uid-1" = None /\
  response s = error_response StatusGatewayTimeout.
Proof.
  cbv zeta. split; [vm_compute; reflexivity|].
  destruct (jid_failure_compensation
              (Sample.handler "singularity")
              (Sample.with_jid_failing (Sample.env_ok Sample.pod1 "--bind /a:/a"))
              Sample.request)
    as (body & data & path & Hb & Hd & _ & _ & _ & Hstore & Hresp);
    [vm_compute; reflexivity|].
  split; [|exact Hresp].
  injection Hd as <-. exact Hstore.
Defined.

End Response.

(** ** The mount fragment of the enroot command *)

Section Enroot.

Lemma ReplaceAll_strip s : ReplaceAll s ":ro" EmptyString = strip s.
Proof. reflexivity. Qed.

Lemma strip_unfold s :
  strip s =
  match s with
  | EmptyString => EmptyString
  | String c r =>
      if Str.has_prefix ":ro" s
      then match r with
           | String _ (String _ rest) => strip rest
           | _ => EmptyString
           end
      else String c (strip r)
  end.
Proof.
  destruct s as [|c r]; [reflexivity|].
  unfold strip. cbn [replace_from].
  destruct (Str.has_prefix ":ro" (String c r)) eqn:E; [|reflexivity].
  destruct r as [|c1 [|c2 rest]]; reflexivity.
Qed.

Lemma has_prefix_cons a p b s :
  Str.has_prefix (String a p) (String b s) = Ascii.eqb a b && Str.has_prefix p s.
Proof. cbn. now destruct (Ascii.eqb a b). Qed.

Lemma contains_cons sub c r :
  Str.contains sub (String c r) = Str.has_prefix sub (String c r) || Str.contains sub r.
Proof. reflexivity. Qed.

Lemma contains_tail sub c r :
  Str.contains sub (String c r) = false -> Str.contains sub r = false.
Proof. rewrite contains_cons. now intros [_ ?]%orb_false_iff. Qed.

Lemma contains_head sub s :
  Str.contains sub s = false -> Str.has_prefix sub s = false.
Proof. destruct s; cbn; now intros [? _]%orb_false_iff. Qed.

(** The stripped string starts with "ro" only if the raw one starts
    with "ro", ":roro" or "r:roo" (up to what follows). *)
Lemma strip_starts_ro r :
  Str.has_prefix "ro" (strip r) = true ->
  Str.has_prefix ":ro" r = true \/ Str.has_prefix "r:ro" r = true \/
  Str.has_prefix "ro" r = true.
Proof.
  rewrite (strip_unfold r). destruct r as [|c1 r1]; [discriminate|].
  destruct (Str.has_prefix ":ro" (String c1 r1)) eqn:E1; [auto|].
  rewrite !has_prefix_cons. intros [Hc1 Ho]%andb_true_iff.
  rewrite Hc1. cbn [andb]. rewrite (strip_unfold r1) in Ho.
  destruct r1 as [|c2 r2]; [discriminate|].
  destruct (Str.has_prefix ":ro" (String c2 r2)) eqn:E2; [auto|].
  right. right. rewrite has_prefix_cons in Ho |- *.
  apply andb_true_iff in Ho as [-> _]. reflexivity.
Qed.

Lemma strip_free_bounded n : forall s,
  (String.length s <= n)%nat ->
  Str.contains "::ro" s = false -> Str.contains ":r:ro" s = false ->
  Str.contains ":ro" (strip s) = false.
Proof.
  induction n as [|n IH]; intros s Hlen H1 H2.
  - destruct s; [reflexivity | cbn in Hlen; lia].
  - rewrite (strip_unfold s). destruct s as [|c r]; [reflexivity|].
    cbn [String.length] in Hlen.
    destruct (Str.has_prefix ":ro" (String c r)) eqn:E.
    + destruct r as [|c1 [|c2 rest]]; try reflexivity.
      apply IH; [cbn [String.length] in Hlen; lia | |];
        eauto using contains_tail.
    + rewrite contains_cons.
      rewrite (IH r) by (try lia; eauto using contains_tail).
      rewrite orb_false_r.
      destruct (Str.has_prefix ":ro" (String c (strip r))) eqn:E'; [|reflexivity].
      exfalso.
      apply contains_head in H1, H2.
      rewrite has_prefix_cons in E, E', H1, H2.
      apply andb_true_iff in E' as [Hc Hro]. rewrite Hc in *. cbn [andb] in *.
      apply strip_starts_ro in Hro as [H | [H | H]]; congruence.
Qed.

Lemma strip_free s :
  Str.contains "::ro" s = false -> Str.contains ":r:ro" s = false ->
  Str.contains ":ro" (strip s) = false.
Proof. now apply (strip_free_bounded (String.length s)). Qed.


(** C9 as stated fails: deleting the marker in "::roro" splices a new
    one together, and the assembled enroot command carries it. *)
Lemma enroot_marker_survives :
  let cmd :=
    assemble (Config (Sample.handler "enroot")) ["enroot"; "start"] ["--env"; "A=B"]
      "::roro" "docker://busybox" Sample.undeclared "uid-1" in
  cmd = ["enroot"; "start"; "--env"; "A=B"; ":ro"; "auid-1"] /\
  existsb (Str.contains ":ro") cmd = true.
Proof. vm_compute. split; reflexivity. Qed.

(** C9, amended. For the enroot runtime the mount fragment appended to
    the command is the raw fragment after one left-to-right pass that
    deletes each ":ro" it meets; the appended fragment contains no ":ro"
    when the raw fragment contains neither "::ro" nor ":r:ro". *)
Theorem enroot_mount_fragment (config : SlurmConfig) (commstr1 envs : list string)
    (mounts image : string) (container : Container) (uid : string) :
  ContainerRuntime config = "enroot" ->
  assemble config commstr1 envs mounts image container uid =
    commstr1 ++ envs ++
    [ReplaceAll mounts ":ro" EmptyString; Name container +:+ uid] /\
  (Str.contains "::ro" mounts = false -> Str.contains ":r:ro" mounts = false ->
   Str.contains ":ro" (ReplaceAll mounts ":ro" EmptyString) = false).
Proof.
  intros Hrt. split.
  - unfold assemble. rewrite Hrt.
    change (String.eqb "enroot" "singularity") with false.
    change (String.eqb "enroot" "enroot") with true.
    cbv iota. now rewrite <- !app_assoc.
  - rewrite ReplaceAll_strip. apply strip_free.
Qed.

Lemma enroot_mount_fragment_witness :
  let config := Config (Sample.handler "enroot") in
  ContainerRuntime config = "enroot" /\
  assemble config ["enroot"; "start"] [] "--bind /a:/a:ro,/b:/b:ro"
    "docker://busybox" Sample.undeclared "uid-1" =
    ["enroot"; "start"; "--bind /a:/a,/b:/b"; "auid-1"] /\
  Str.contains ":ro" (ReplaceAll "--bind /a:/a:ro,/b:/b:ro" ":ro" EmptyString) = false.
Proof.
  cbv zeta. split; [reflexivity|].
  destruct (enroot_mount_fragment (Config (Sample.handler "enroot"))
              ["enroot"; "start"] [] "--bind /a:/a:ro,/b:/b:ro"
              "docker://busybox" Sample.undeclared "uid-1" eq_refl)
    as [Hcmd Hfree].
  split.
  - rewrite Hcmd. vm_compute. reflexivity.
  - apply Hfree; vm_compute; reflexivity.
Defined.

End Enroot.

(** ** From the loop to the script generator *)

Section Bridge.

(** Whenever the script generator is called, it is given the commands of
    all containers and the limits and flags computed by [aggregate] over
    the init containers followed by the regular containers. *)
Lemma script_arguments (h : SidecarHandler) (env : Collaborators) (r : Request)
    cmds limits dc dr ok :
  In (CallProduceSLURMScript cmds limits dc dr ok) (trace (run h env r)) ->
  exists body data,
    ReadAll_Body r = (body, None) /\
    json_Unmarshal env body = (data, None) /\
    limits = resourceLimits (fst (aggregate (all_containers data))) /\
    dc = isDefaultCPU (fst (aggregate (all_containers data))) /\
    dr = isDefaultRam (fst (aggregate (all_containers data))) /\
    length cmds = length (all_containers data).
Proof.
  generalize (run_outcome h env r). generalize (run h env r). intros s Ho Hin.
  assert (Hlen : forall rt data i cs,
             length (commands_from h env rt data i cs) = length cs).
  { intros rt data i cs. revert i.
    induction cs; intros i; cbn; [reflexivity | now rewrite IHcs]. }
  assert (Hno : forall rt data rest,
             In (CallProduceSLURMScript cmds limits dc dr ok)
                (through_loop h rt data ++ rest) ->
             In (CallProduceSLURMScript cmds limits dc dr ok) rest).
  { intros rt data rest H. apply in_app_iff in H as [H | H]; [|assumption].
    apply in_through_loop in H as [H | [H | [H | [H _]]]]; discriminate. }
  destruct Ho as [| | |body rt data cs1 c cs2 Hb Hrt Hd Hsplit Hok1 Hc
                  |body rt data|body rt data|body rt data|body rt data|body rt data];
    cbn [trace] in Hin.
  1-3: exfalso; unfold handled, error_response in Hin; cbn [In app] in Hin;
    repeat (destruct Hin as [Hin | Hin]; [discriminate Hin|]); exact Hin.
  { exfalso. apply in_mounts_failed in Hin as [Hq _]. discriminate. }
  all: apply Hno in Hin; unfold script_event, handled, error_response in Hin;
    cbn [In app] in Hin; destruct Hin as [Hin | Hin];
    [ injection Hin as <- <- <- <- _; exists body, data;
      unfold final_agg, final_commands; rewrite Hlen; auto 10
    | exfalso; repeat (destruct Hin as [Hin | Hin]; [discriminate Hin|]);
      exact Hin ].
Qed.

(** C1 and C5 seen from the script generator: the pod with one
    undeclared container is handed on with limits 0 and 0. *)
Example undeclared_pod_script_limits :
  exists cmds,
    In (CallProduceSLURMScript cmds {| CPU := 0; Memory := 0 |} true true true)
       (trace (run (Sample.handler "singularity")
                   (Sample.env_ok Sample.pod1 "--bind /a:/a") Sample.request)).
Proof. eexists. vm_compute. do 9 right. left. reflexivity. Qed.

End Bridge.

(** ** The theorems at concrete requests *)

Section Instances.

Let pod_ok := Sample.env_ok Sample.pod1 "--bind /a:/a".

Lemma parseMem_spec_witness :
  parseMem "2G" = (2147483648, None) /\
  exists e, parseMem "12T" = (0, Some e).
Proof.
  split.
  - apply (proj1 (parseMem_spec "2G") "2" "G").
    + repeat split; [discriminate | auto].
    + vm_compute. discriminate.
  - apply (proj2 (parseMem_spec "12T")). intros ds u Htok.
    apply FindStringSubmatch_token in Htok. vm_compute in Htok. discriminate.
Defined.

Lemma runtime_selection_fail_fast_witness :
  let h := Sample.handler "docker" in
  createRuntime (ContainerRuntime (Config h)) = inr (errors_New "invalid runtime") /\
  Forall (fun ev => container_level ev = false) (trace (run h pod_ok Sample.request)) /\
  response (run h pod_ok Sample.request) = error_response StatusInternalServerError.
Proof.
  cbv zeta. split; [reflexivity|].
  exact (proj1 (proj2 (proj2 (proj2 (runtime_selection_fail_fast
                                       (Sample.handler "docker") pod_ok
                                       Sample.request))))
           (errors_New "invalid runtime") eq_refl).
Defined.

Lemma staged_side_effects_witness :
  let h := Sample.handler "singularity" in
  let env := Sample.with_mounts_failing "a" pod_ok in
  In (CallPrepareMounts "a" false) (trace (run h env Sample.request)) /\
  Forall (fun e => scheduler_visible e = false) (trace (run h env Sample.request)) /\
  store (run h env Sample.request) = JIDs h /\
  mounts_ok h pod_ok {| data_Pod := Sample.pod1 |} Sample.undeclared = true.
Proof.
  cbv zeta.
  assert (Hin : In (CallPrepareMounts "a" false)
                   (trace (run (Sample.handler "singularity")
                               (Sample.with_mounts_failing "a" pod_ok) Sample.request)))
    by (vm_compute; tauto).
  split; [exact Hin|].
  destruct (proj2 (staged_side_effects _ _ _) "a" Hin)
    as (body & data & _ & _ & _ & Hquiet & Hstore).
  split; [exact Hquiet|]. split; [exact Hstore|].
  set (tr := trace (run (Sample.handler "singularity") pod_ok Sample.request)).
  assert (Heq : tr = firstn 9 tr ++ nth 9 tr (Write EmptyString) :: skipn 10 tr)
    by (vm_compute; reflexivity).
  pose proof (proj1 (staged_side_effects (Sample.handler "singularity") pod_ok
                       Sample.request) _ _ _ Heq) as Hpre.
  destruct Hpre as (body' & data' & _ & Hd & Hall); [vm_compute; reflexivity|].
  injection Hd as <-.
  exact (proj1 (Hall Sample.undeclared (or_introl eq_refl))).
Defined.

Lemma reported_status_witness :
  let h := Sample.handler "singularity" in
  let s1 := run h (Sample.with_submit_failing pod_ok) Sample.request in
  let s2 := run h (Sample.with_marshal_failing pod_ok) Sample.request in
  let s3 := run h (Sample.with_mounts_failing "a" pod_ok) Sample.request in
  (handleError_codes (trace s1) = [StatusGatewayTimeout] /\
   statusCode s1 = StatusInternalServerError) /\
  (handleError_codes (trace s2) = [StatusInternalServerError] /\
   statusCode s2 = StatusInternalServerError) /\
  (handleError_codes (trace s3) = [StatusGatewayTimeout] /\
   statusCode s3 = StatusInternalServerError).
Proof.
  cbv zeta. split; [|split].
  - eapply (proj1 (proj2 (proj2 (reported_status (Sample.handler "singularity")
                                   (Sample.with_submit_failing pod_ok)
                                   Sample.request))));
      vm_compute; reflexivity.
  - eapply (proj1 (proj2 (proj2 (proj2 (proj2 (proj2 (proj2
              (reported_status (Sample.handler "singularity")
                 (Sample.with_marshal_failing pod_ok) Sample.request))))))));
      vm_compute; reflexivity.
  - eapply (proj1 (proj2 (reported_status (Sample.handler "singularity")
                            (Sample.with_mounts_failing "a" pod_ok)
                            Sample.request)))
      with (c := Sample.undeclared);
      vm_compute; try reflexivity. left. reflexivity.
Defined.

(** The run that succeeds: status 200 and the marshalled pair, one
    entry in the store. *)
Example successful_submission :
  let s := run (Sample.handler "singularity") pod_ok Sample.request in
  response s = [WriteHeader StatusOK; Write "uid-1:42"] /\
  store s !! "uid-1" = Some "42" /\
  statusCode s = StatusOK.
Proof. vm_compute. repeat split. Qed.

End Instances.


(** * Further properties of the code *)

(** ** parseMem beyond the representable byte counts *)

Section ParseMemEdges.

Lemma wrap64_mod z : wrap64 z = z - 2 ^ 64 * ((z + 2 ^ 63) / 2 ^ 64).
Proof.
  unfold wrap64. rewrite Z.mod_eq by lia. lia.
Qed.

Lemma wrap64_congr a b k : a = b + 2 ^ 64 * k -> wrap64 a = wrap64 b.
Proof.
  intros ->. unfold wrap64.
  replace (b + 2 ^ 64 * k + 2 ^ 63) with (b + 2 ^ 63 + k * 2 ^ 64) by lia.
  now rewrite Z.mod_add by lia.
Qed.

Lemma mul64_wrap_l a b : mul64 (wrap64 a) b = wrap64 (a * b).
Proof.
  unfold mul64. rewrite (wrap64_mod a).
  apply (wrap64_congr _ _ (- ((a + 2 ^ 63) / 2 ^ 64) * b)). lia.
Qed.

(** Past 64 bits the accumulation of [ParseUint] stops with a range
    error. *)
Lemma ParseUint_loop_overflow s0 ds : forall n,
  Str.all_digits ds = true -> 0 <= n <= maxUint64 ->
  maxUint64 < n * 10 ^ Z.of_nat (String.length ds) + Grammar.digits_value ds ->
  strconv.ParseUint_loop s0 n ds = (maxUint64, Some (ErrRange "ParseUint" s0)).
Proof.
  induction ds as [|c r IH]; intros n Hd Hn Hbig.
  - cbn in Hbig. lia.
  - simpl in Hd. apply andb_true_iff in Hd as [Hc Hr].
    pose proof (is_digit_range c Hc) as Hdc.
    cbn [String.length Grammar.digits_value] in Hbig.
    rewrite Nat2Z.inj_succ, Z.pow_succ_r in Hbig by lia.
    cbn [strconv.ParseUint_loop]. rewrite Hc. cbn [negb].
    destruct (strconv.cutoff <=? n) eqn:Hcut; [reflexivity|].
    apply Z.leb_gt in Hcut. unfold strconv.cutoff, maxUint64 in *.
    change (2 ^ 64 - 1) with 18446744073709551615 in *.
    change (18446744073709551615 / 10 + 1) with 1844674407370955162 in Hcut.
    change (2 ^ 64) with 18446744073709551616.
    destruct (Z_lt_ge_dec (n * 10 + Str.digit_val c) 18446744073709551616) as [Hlt|Hge].
    + rewrite Z.mod_small by lia.
      replace (n * 10 + Str.digit_val c <? n * 10) with false
        by (symmetry; apply Z.ltb_ge; lia).
      replace (18446744073709551615 <? n * 10 + Str.digit_val c) with false
        by (symmetry; apply Z.ltb_ge; lia).
      cbn [orb]. apply IH; [assumption | lia | nia].
    + replace ((n * 10 + Str.digit_val c) mod 18446744073709551616)
        with (n * 10 + Str.digit_val c - 18446744073709551616).
      * replace (n * 10 + Str.digit_val c - 18446744073709551616 <? n * 10) with true
          by (symmetry; apply Z.ltb_lt; lia).
        reflexivity.
      * apply Z.mod_unique with (q := 1); lia.
Qed.

Lemma ParseInt_digits_range ds :
  ds <> EmptyString -> Str.all_digits ds = true ->
  maxInt64 < Grammar.digits_value ds ->
  strconv.ParseInt ds = (maxInt64, Some (ErrRange "ParseInt" ds)).
Proof.
  intros Hne Hd Hbig. destruct ds as [|c r]; [congruence|].
  pose proof Hd as Hd'. simpl in Hd'. apply andb_true_iff in Hd' as [Hc _].
  destruct (is_digit_not_sign c Hc) as [Hplus Hminus].
  unfold strconv.ParseInt. rewrite Hplus, Hminus. unfold strconv.ParseUint.
  destruct (Z_le_gt_dec (Grammar.digits_value (String c r)) maxUint64) as [Hfit|Hover].
  - rewrite ParseUint_loop_value by (auto; lia).
    rewrite Z.mul_0_l, Z.add_0_l. cbn [negb andb].
    replace (2 ^ 63 <=? Grammar.digits_value (String c r)) with true
      by (symmetry; apply Z.leb_le; unfold maxInt64 in Hbig; lia).
    reflexivity.
  - rewrite ParseUint_loop_overflow by (auto; unfold maxUint64 in *; lia).
    reflexivity.
Qed.

(** [parseMem] on a token of the grammar, in all cases. *)
Lemma parseMem_token val ds u :
  Grammar.token val ds u ->
  parseMem val =
    if Grammar.digits_value ds <=? maxInt64
    then (wrap64 (Grammar.bytes ds u), None)
    else (0, Some (ErrRange "ParseInt" ds)).
Proof.
  intros Htok. unfold parseMem.
  rewrite (FindStringSubmatch_token _ _ _ Htok).
  change (negb (length [val; ds; u] =? 3)%nat) with false.
  change (nth 1 [val; ds; u] EmptyString) with ds.
  change (nth 2 [val; ds; u] EmptyString) with u.
  destruct Htok as (_ & Hne & Hd & Hu). cbv iota.
  destruct (Grammar.digits_value ds <=? maxInt64) eqn:Hfit.
  - apply Z.leb_le in Hfit. rewrite (ParseInt_digits _ Hne Hd Hfit).
    pose proof (digits_value_nonneg _ Hd) as Hv.
    unfold Grammar.bytes. set (v := Grammar.digits_value ds) in *.
    assert (Hw : wrap64 v = v) by (apply wrap64_small; unfold minInt64; lia).
    destruct Hu as [-> | [-> | [-> | ->]]].
    + change (Grammar.unit_exponent EmptyString) with 0.
      change (String.eqb EmptyString "G") with false.
      change (String.eqb EmptyString "M") with false.
      change (String.eqb EmptyString "K") with false.
      cbv iota. change (1024 ^ 0) with 1. now rewrite Z.mul_1_r, Hw.
    + change (Grammar.unit_exponent "K") with 1.
      change (String.eqb "K" "G") with false.
      change (String.eqb "K" "M") with false.
      change (String.eqb "K" "K") with true.
      cbv iota. change (1024 ^ 1) with 1024. reflexivity.
    + change (Grammar.unit_exponent "M") with 2.
      change (String.eqb "M" "G") with false.
      change (String.eqb "M" "M") with true.
      cbv iota. change (1024 ^ 2) with 1048576.
      unfold mul64 at 2. fold (mul64 (wrap64 (v * 1024)) 1024).
      rewrite mul64_wrap_l. f_equal. f_equal. lia.
    + change (Grammar.unit_exponent "G") with 3.
      change (String.eqb "G" "G") with true.
      cbv iota. change (1024 ^ 3) with 1073741824.
      unfold mul64 at 3. fold (mul64 (wrap64 (v * 1024)) 1024).
      rewrite mul64_wrap_l.
      fold (mul64 (wrap64 (v * 1024 * 1024)) 1024).
      rewrite mul64_wrap_l. f_equal. f_equal. lia.
  - apply Z.leb_gt in Hfit. now rewrite (ParseInt_digits_range _ Hne Hd) by lia.
Qed.

(** X1. When the digits of a token fit a signed 64-bit integer, [parseMem]
    reports no error whatever the unit: the multiplications by 1024 wrap
    around, and the value returned is [digits * 1024^k] reduced to the
    [int64] range, which is the byte count only when that is
    representable. *)
Theorem parseMem_wraps_silently (val ds u : string) :
  Grammar.token val ds u ->
  Grammar.digits_value ds <= maxInt64 ->
  parseMem val = (wrap64 (Grammar.bytes ds u), None).
Proof.
  intros Htok Hfit. rewrite (parseMem_token _ _ _ Htok).
  apply Z.leb_le in Hfit. now rewrite Hfit.
Qed.

Lemma parseMem_wraps_silently_witness :
  Grammar.token "8589934592G" "8589934592" "G" /\
  Grammar.bytes "8589934592" "G" = 2 ^ 63 /\
  parseMem "8589934592G" = (- 2 ^ 63, None).
Proof.
  assert (Htok : Grammar.token "8589934592G" "8589934592" "G")
    by (repeat split; [discriminate | auto]).
  split; [exact Htok|]. split; [reflexivity|].
  rewrite (parseMem_wraps_silently _ _ _ Htok); [reflexivity|].
  vm_compute. discriminate.
Defined.

(** X2. When the digits of a token do not fit a signed 64-bit integer,
    [parseMem] returns the range error of [strconv.ParseInt] and the value
    0, not the clamped value that [ParseInt] returns with it. *)
Theorem parseMem_digits_out_of_range (val ds u : string) :
  Grammar.token val ds u ->
  maxInt64 < Grammar.digits_value ds ->
  parseMem val = (0, Some (ErrRange "ParseInt" ds)).
Proof.
  intros Htok Hbig. rewrite (parseMem_token _ _ _ Htok).
  apply Z.leb_gt in Hbig. now rewrite Hbig.
Qed.

Lemma parseMem_digits_out_of_range_witness :
  parseMem "9223372036854775808K" = (0, Some (ErrRange "ParseInt" "9223372036854775808")).
Proof.
  apply (parseMem_digits_out_of_range _ "9223372036854775808" "K").
  - repeat split; [discriminate | auto].
  - vm_compute. reflexivity.
Defined.

(** X3. Every result of [parseMem] is of one of three kinds: no error, and
    then the input is a token of the grammar whose digits fit 64 bits and
    the value is the wrapped product; the format error, for an input
    outside the grammar; or the range error, for digits past 64 bits.  With
    an error the value is 0. *)
Theorem parseMem_results (val : string) (v : Z) (err : option error) :
  parseMem val = (v, err) ->
  match err with
  | None =>
      exists ds u, Grammar.token val ds u /\
                   Grammar.digits_value ds <= maxInt64 /\
                   v = wrap64 (Grammar.bytes ds u)
  | Some e =>
      v = 0 /\
      ((e = errors_New ("invalid memory format: " +:+ val) /\
        forall ds u, ~ Grammar.token val ds u) \/
       (exists ds u, Grammar.token val ds u /\
                     maxInt64 < Grammar.digits_value ds /\
                     e = ErrRange "ParseInt" ds))
  end.
Proof.
  destruct (FindStringSubmatch_match val) as [Hno | (ds & u & Htok & _)].
  - unfold parseMem. rewrite Hno.
    change (negb (length (@nil string) =? 3)%nat) with true. cbv iota.
    intros [= <- <-]. split; [reflexivity|]. left. split; [reflexivity|].
    intros ds u Htok. apply FindStringSubmatch_token in Htok. congruence.
  - rewrite (parseMem_token _ _ _ Htok).
    destruct (Grammar.digits_value ds <=? maxInt64) eqn:Hfit; intros [= <- <-].
    + apply Z.leb_le in Hfit. eauto.
    + apply Z.leb_gt in Hfit. split; [reflexivity|]. right. eauto.
Qed.

Lemma parseMem_results_witness :
  exists ds u, Grammar.token "3M" ds u /\
               Grammar.digits_value ds <= maxInt64 /\
               3145728 = wrap64 (Grammar.bytes ds u).
Proof.
  exact (parseMem_results "3M" 3145728 None eq_refl).
Defined.

End ParseMemEdges.

(** ** The aggregation loop as a fold *)

Section AggregationFacts.

Lemma max_of_ge x xs : In x xs -> x <= Ceiling.max_of xs.
Proof.
  unfold Ceiling.max_of. induction xs as [|y xs IH]; [intros []|].
  intros [-> | Hin]; cbn; [lia|]. specialize (IH Hin). lia.
Qed.

Lemma max_of_attained xs : Ceiling.max_of xs = 0 \/ In (Ceiling.max_of xs) xs.
Proof.
  unfold Ceiling.max_of. induction xs as [|y xs IH]; [now left|]. cbn.
  destruct (Z.max_spec y (fold_right Z.max 0 xs)) as [[_ ->] | [_ ->]].
  - destruct IH as [IH | IH]; [now left | right; now right].
  - right. now left.
Qed.

Lemma max_of_app xs ys :
  Ceiling.max_of (xs ++ ys) = Z.max (Ceiling.max_of xs) (Ceiling.max_of ys).
Proof.
  unfold Ceiling.max_of. induction xs as [|x xs IH]; cbn.
  - pose proof (max_of_nonneg ys) as H. unfold Ceiling.max_of in H. lia.
  - rewrite IH. lia.
Qed.

Lemma nonpos_iff_max_zero xs :
  forallb (fun x => x <=? 0) xs = (Ceiling.max_of xs =? 0).
Proof.
  unfold Ceiling.max_of. induction xs as [|x xs IH]; [reflexivity|]. cbn.
  rewrite IH. pose proof (max_of_nonneg xs) as H. unfold Ceiling.max_of in H.
  destruct (x <=? 0) eqn:E1, (fold_right Z.max 0 xs =? 0) eqn:E2; cbn;
    symmetry; rewrite ?Z.eqb_eq, ?Z.eqb_neq;
    rewrite ?Z.leb_le, ?Z.leb_gt, ?Z.eqb_eq, ?Z.eqb_neq in *; lia.
Qed.

Lemma in_cpu_limits c cs : In c cs -> In (cpuLimitFromContainer c) (cpu_limits cs).
Proof. apply in_map. Qed.

Lemma in_memory_limits c cs :
  In c cs -> In (memoryLimitFromContainer c) (memory_limits cs).
Proof. apply in_map. Qed.

(** C5, amended.  A container that declares exactly the default floor
    of a resource (1 CPU, 1048576 bytes) while the default-used flag of
    the resource is set clears the flag, and the ceiling becomes the
    floor: the flag of a resource stays set exactly as long as no
    container has declared a positive limit for it.  The tie that changes
    nothing is the one with the ceiling reached so far: a declared limit
    equal to it leaves the ceiling and the flag as they are. *)
Theorem tie_with_floor (cs : list Container) (c : Container) :
  let a := fst (aggregate cs) in
  let a' := fst (aggregate (cs ++ [c])) in
  (isDefaultCPU a = true -> cpuLimitFromContainer c = 1 ->
     isDefaultCPU a' = false /\ CPU (resourceLimits a') = 1) /\
  (isDefaultRam a = true -> memoryLimitFromContainer c = 1024 * 1024 ->
     isDefaultRam a' = false /\ Memory (resourceLimits a') = 1024 * 1024) /\
  isDefaultCPU a' = isDefaultCPU a && (cpuLimitFromContainer c <=? 0) /\
  isDefaultRam a' = isDefaultRam a && (memoryLimitFromContainer c <=? 0) /\
  (cpuLimitFromContainer c = CPU (resourceLimits a) ->
     isDefaultCPU a' = isDefaultCPU a /\
     CPU (resourceLimits a') = CPU (resourceLimits a)) /\
  (memoryLimitFromContainer c = Memory (resourceLimits a) ->
     isDefaultRam a' = isDefaultRam a /\
     Memory (resourceLimits a') = Memory (resourceLimits a)).
Proof.
  cbv zeta.
  destruct (aggregate_spec cs) as (-> & -> & ->).
  destruct (aggregate_spec (cs ++ [c])) as (-> & -> & ->).
  unfold cpu_limits, memory_limits.
  rewrite !map_app, !max_of_app, !forallb_app, !nonpos_iff_max_zero.
  cbn [map forallb Ceiling.max_of fold_right CPU Memory].
  set (x := cpuLimitFromContainer c). set (m := memoryLimitFromContainer c).
  pose proof (max_of_nonneg (map cpuLimitFromContainer cs)) as Hc.
  pose proof (max_of_nonneg (map memoryLimitFromContainer cs)) as Hm.
  fold (Ceiling.max_of (map cpuLimitFromContainer cs)).
  fold (Ceiling.max_of (map memoryLimitFromContainer cs)).
  set (C := Ceiling.max_of (map cpuLimitFromContainer cs)) in *.
  set (M := Ceiling.max_of (map memoryLimitFromContainer cs)) in *.
  clearbody x m C M.
  repeat split; intros;
    repeat match goal with
      | H : (_ =? _) = true |- _ => apply Z.eqb_eq in H
      end;
    subst; try lia;
    repeat match goal with
      | |- context [?u =? ?v] =>
          let E := fresh "E" in
          destruct (Z.eqb_spec u v) as [E | E]
      | |- context [?u <=? ?v] =>
          let E := fresh "E" in
          destruct (Z.leb_spec u v) as [E | E]
      end; cbn [andb]; first [reflexivity | lia].
Qed.

Lemma tie_with_floor_witness :
  let a' := fst (aggregate ([Sample.undeclared] ++ [Sample.at_floor])) in
  isDefaultCPU a' = false /\ CPU (resourceLimits a') = 1.
Proof.
  apply (proj1 (tie_with_floor [Sample.undeclared] Sample.at_floor));
    reflexivity.
Defined.

(** X4. The ceilings the loop ends with bound every container's limit
    from above, and each of them is either 0 or the limit of one of the
    containers: the job is sized to its most demanding container and to
    nothing larger. *)
Theorem ceilings_are_attained_maxima (cs : list Container) :
  let rl := resourceLimits (fst (aggregate cs)) in
  (forall c, In c cs ->
     cpuLimitFromContainer c <= CPU rl /\
     memoryLimitFromContainer c <= Memory rl) /\
  (CPU rl = 0 \/ exists c, In c cs /\ cpuLimitFromContainer c = CPU rl) /\
  (Memory rl = 0 \/ exists c, In c cs /\ memoryLimitFromContainer c = Memory rl).
Proof.
  destruct (aggregate_spec cs) as (Hrl & _). cbv zeta. rewrite Hrl. cbn [CPU Memory].
  split; [|split].
  - intros c Hc. split; apply max_of_ge; [now apply in_cpu_limits | now apply in_memory_limits].
  - destruct (max_of_attained (cpu_limits cs)) as [H | H]; [now left|].
    right. unfold cpu_limits in H. apply in_map_iff in H as (c & Hc & Hin). eauto.
  - destruct (max_of_attained (memory_limits cs)) as [H | H]; [now left|].
    right. unfold memory_limits in H. apply in_map_iff in H as (c & Hc & Hin). eauto.
Qed.

Lemma ceilings_are_attained_maxima_witness :
  cpuLimitFromContainer Sample.big <=
    CPU (resourceLimits (fst (aggregate [Sample.undeclared; Sample.big; Sample.at_floor]))) /\
  memoryLimitFromContainer Sample.big <=
    Memory (resourceLimits (fst (aggregate [Sample.undeclared; Sample.big; Sample.at_floor]))).
Proof.
  apply (proj1 (ceilings_are_attained_maxima
                  [Sample.undeclared; Sample.big; Sample.at_floor])).
  cbn. auto.
Defined.

(** X18. A CPU limit that no [int64] holds is converted to the least
    [int64] at line 123.  Such a container is not warned about for CPU,
    and the CPU ceiling and the CPU flag the loop ends with are those of
    the pod without it: alone in a pod it leaves the ceiling 0 and the
    flag set. *)
Theorem cpu_limit_overflow (cs1 cs2 : list Container) (c : Container) :
  maxInt64 < Qround.Qceiling (Limits_Cpu c) ->
  cpuLimitFromContainer c = minInt64 /\
  (forall a, snd (cpu_rule c a) = []) /\
  CPU (resourceLimits (fst (aggregate (cs1 ++ c :: cs2)))) =
    CPU (resourceLimits (fst (aggregate (cs1 ++ cs2)))) /\
  isDefaultCPU (fst (aggregate (cs1 ++ c :: cs2))) =
    isDefaultCPU (fst (aggregate (cs1 ++ cs2))).
Proof.
  intros Hbig.
  assert (Hx : cpuLimitFromContainer c = minInt64).
  { unfold cpuLimitFromContainer, int64_of_float.
    destruct (Z.leb_spec (Qround.Qceiling (Limits_Cpu c)) maxInt64) as [Hle | _];
      [lia|]. now rewrite andb_false_r. }
  split; [exact Hx|]. split.
  - intros a. unfold cpu_rule. rewrite Hx. cbn [Z.eqb minInt64 andb].
    change (minInt64 =? 0) with false. cbn [andb].
    now destruct (_ && _).
  - destruct (aggregate_spec (cs1 ++ c :: cs2)) as (-> & -> & _).
    destruct (aggregate_spec (cs1 ++ cs2)) as (-> & -> & _).
    unfold cpu_limits. rewrite !map_app, !max_of_app, !forallb_app.
    cbn [map forallb Ceiling.max_of fold_right CPU]. rewrite Hx.
    fold (Ceiling.max_of (map cpuLimitFromContainer cs2)).
    pose proof (max_of_nonneg (map cpuLimitFromContainer cs2)) as H2.
    change (minInt64 <=? 0) with true. cbn [andb].
    split; [|reflexivity]. f_equal. unfold minInt64. lia.
Qed.

Lemma cpu_limit_overflow_witness :
  cpuLimitFromContainer Sample.huge = minInt64 /\
  CPU (resourceLimits (fst (aggregate [Sample.huge]))) = 0 /\
  isDefaultCPU (fst (aggregate [Sample.huge])) = true.
Proof.
  assert (Hbig : maxInt64 < Qround.Qceiling (Limits_Cpu Sample.huge))
    by (vm_compute; reflexivity).
  pose proof (cpu_limit_overflow [] [] Sample.huge Hbig) as (H1 & _ & H2 & H3).
  exact (conj H1 (conj H2 H3)).
Defined.

(** X5. At the end of the loop a default-used flag is set exactly when
    the ceiling of its resource is 0: whoever receives the limits sees a
    zero ceiling with the flag and a positive one without it. *)
Theorem flag_set_iff_ceiling_zero (cs : list Container) :
  let a := fst (aggregate cs) in
  isDefaultCPU a = (CPU (resourceLimits a) =? 0) /\
  isDefaultRam a = (Memory (resourceLimits a) =? 0).
Proof.
  destruct (aggregate_spec cs) as (Hrl & Hc & Hm). cbv zeta.
  rewrite Hrl, Hc, Hm. cbn [CPU Memory].
  split; apply nonpos_iff_max_zero.
Qed.

(** X6. Processing a list of containers followed by another gives, on
    each resource, the larger of the two ceilings and the conjunction of
    the two flags: a ceiling never goes down while the loop runs and a
    flag that was cleared stays cleared. *)
Theorem aggregate_app (cs cs' : list Container) :
  let a := fst (aggregate cs) in
  let a' := fst (aggregate cs') in
  let b := fst (aggregate (cs ++ cs')) in
  resourceLimits b =
    {| CPU := Z.max (CPU (resourceLimits a)) (CPU (resourceLimits a'));
       Memory := Z.max (Memory (resourceLimits a)) (Memory (resourceLimits a')) |} /\
  isDefaultCPU b = isDefaultCPU a && isDefaultCPU a' /\
  isDefaultRam b = isDefaultRam a && isDefaultRam a'.
Proof.
  cbv zeta.
  destruct (aggregate_spec cs) as (-> & -> & ->).
  destruct (aggregate_spec cs') as (-> & -> & ->).
  destruct (aggregate_spec (cs ++ cs')) as (-> & -> & ->).
  unfold cpu_limits, memory_limits. rewrite !map_app, !max_of_app, !forallb_app.
  cbn [CPU Memory]. auto.
Qed.

(** X7. The auxiliary maxima [maxCPULimit] and [maxMemoryLimit] never
    differ from the committed ceilings, so for whatever container comes
    next the second half of the guards of lines 129 and 141 decides
    nothing: each guard is the plain comparison with the ceiling. *)
Theorem auxiliary_maxima_redundant (cs : list Container) (c : Container) :
  let a := fst (aggregate cs) in
  let x := cpuLimitFromContainer c in
  let m := memoryLimitFromContainer c in
  maxCPULimit a = CPU (resourceLimits a) /\
  maxMemoryLimit a = Memory (resourceLimits a) /\
  (CPU (resourceLimits a) <? x) && (maxCPULimit a <? int_of_int64 x) =
    (CPU (resourceLimits a) <? x) /\
  (Memory (resourceLimits a) <? m) && (maxMemoryLimit a <? int_of_int64 m) =
    (Memory (resourceLimits a) <? m).
Proof.
  cbv zeta. unfold aggregate.
  destruct (aggregate_from_spec cs agg_init [] agg_inv_init) as ([H1 H2 _ _ H5 H6 _ _] & _).
  unfold int_of_int64. rewrite H2, H6, <- H1, <- H5.
  repeat split; apply andb_diag.
Qed.

Lemma limits_step_warning res n c a :
  In (LogWarning res n) (snd (limits_step c a)) <->
  Name c = n /\ limit_of res c = 0 /\ flag_of res a = true.
Proof.
  unfold limits_step, cpu_rule, mem_rule, limit_of, flag_of.
  destruct a as [dc dr mc mm cl ml rl]; cbn [isDefaultCPU isDefaultRam].
  destruct res;
  destruct (cpuLimitFromContainer c =? 0) eqn:Ex; destruct dc; cbn [andb];
    repeat match goal with
      | |- context [if ?b then _ else _] =>
          lazymatch b with
          | (memoryLimitFromContainer c =? 0) && _ => fail
          | _ => destruct b
          end
      end;
    cbn [isDefaultRam];
    destruct (memoryLimitFromContainer c =? 0) eqn:Em; destruct dr; cbn [andb];
    repeat match goal with
      | |- context [if ?b then _ else _] => destruct b
      end;
    cbn [snd app In];
    rewrite ?Z.eqb_eq, ?Z.eqb_neq in *;
    split; intros H;
    repeat match goal with
      | H : _ \/ _ |- _ => destruct H
      | H : _ /\ _ |- _ => destruct H
      | H : LogWarning _ _ = LogWarning _ _ |- _ => injection H as ?
      | H : False |- _ => destruct H
      end;
    try discriminate; try congruence; subst; auto.
Qed.

Lemma aggregate_from_snd cs : forall a ws,
  snd (aggregate_from a ws cs) = ws ++ snd (aggregate_from a [] cs).
Proof.
  induction cs as [|c cs IH]; intros a ws; cbn.
  - now rewrite app_nil_r.
  - destruct (limits_step c a) as [a' w]. cbn.
    rewrite (IH a' (ws ++ w)), (IH a' w). now rewrite app_assoc.
Qed.

Lemma aggregate_from_cons c cs a :
  aggregate_from a [] (c :: cs) =
    (fst (aggregate_from (fst (limits_step c a)) [] cs),
     snd (limits_step c a) ++ snd (aggregate_from (fst (limits_step c a)) [] cs)).
Proof.
  cbn. destruct (limits_step c a) as [a' w]. cbn.
  rewrite (surjective_pairing (aggregate_from a' w cs)).
  now rewrite aggregate_from_fst, aggregate_from_snd.
Qed.

(** A warning of the loop comes from one iteration, run in the state the
    containers before it have left. *)
Lemma in_aggregate_warnings w cs : forall a,
  In w (snd (aggregate_from a [] cs)) <->
  exists pre c post,
    cs = pre ++ c :: post /\
    In w (snd (limits_step c (fst (aggregate_from a [] pre)))).
Proof.
  induction cs as [|c0 cs IH]; intros a.
  - cbn. split; [intros [] | intros (pre & c & post & Heq & _)].
    now destruct pre.
  - rewrite aggregate_from_cons. cbn [snd]. rewrite in_app_iff, IH. split.
    + intros [Hin | (pre & c & post & -> & Hin)].
      * now exists [], c0, cs.
      * exists (c0 :: pre), c, post. split; [reflexivity|].
        now rewrite aggregate_from_cons.
    + intros (pre & c & post & Heq & Hin). destruct pre as [|c1 pre].
      * injection Heq as <- <-. now left.
      * injection Heq as <- ->. right. exists pre, c, post.
        split; [reflexivity|]. now rewrite aggregate_from_cons in Hin.
Qed.

Lemma forallb_of_map {A B} (f : B -> bool) (g : A -> B) l :
  forallb f (map g l) = forallb (fun x => f (g x)) l.
Proof. induction l as [|x l IH]; cbn; [reflexivity | now rewrite IH]. Qed.

Lemma flag_of_aggregate res cs :
  flag_of res (fst (aggregate cs)) = forallb (fun c => limit_of res c <=? 0) cs.
Proof.
  destruct (aggregate_spec cs) as (_ & Hc & Hm).
  destruct res; cbn [flag_of limit_of]; rewrite ?Hc, ?Hm;
    unfold cpu_limits, memory_limits; now rewrite forallb_of_map.
Qed.

(** X8. The loop warns about a container for a resource exactly when the
    container declares no limit for it (limit 0) and no container before
    it has a positive limit for it: after the first container that
    declares a limit, no container is warned about, declared or not. *)
Theorem warning_iff_undeclared_so_far (res : Resource) (n : string)
    (cs : list Container) :
  In (LogWarning res n) (snd (aggregate cs)) <->
  exists pre c post,
    cs = pre ++ c :: post /\ Name c = n /\ limit_of res c = 0 /\
    forall c', In c' pre -> limit_of res c' <= 0.
Proof.
  unfold aggregate. rewrite in_aggregate_warnings.
  split; intros (pre & c & post & Heq & H); exists pre, c, post;
    (split; [exact Heq|]).
  - apply limits_step_warning in H as (Hn & Hl & Hf).
    change (aggregate_from agg_init [] pre) with (aggregate pre) in Hf.
    rewrite flag_of_aggregate, forallb_forall in Hf.
    repeat split; try assumption. intros c' Hc'. now apply Z.leb_le, Hf.
  - destruct H as (Hn & Hl & Hpre). apply limits_step_warning.
    change (aggregate_from agg_init [] pre) with (aggregate pre).
    rewrite flag_of_aggregate, forallb_forall.
    repeat split; try assumption. intros c' Hc'. now apply Z.leb_le, Hpre.
Qed.

Lemma warning_iff_undeclared_so_far_witness :
  In (LogWarning ResMemory "d")
     (snd (aggregate [Sample.undeclared; Sample.fractional; Sample.big])) /\
  ~ In (LogWarning ResCPU "a")
       (snd (aggregate [Sample.big; Sample.undeclared])).
Proof.
  split.
  - apply (proj2 (warning_iff_undeclared_so_far ResMemory "d"
                    [Sample.undeclared; Sample.fractional; Sample.big])).
    exists [Sample.undeclared], Sample.fractional, [Sample.big].
    repeat split. intros c' [<- | []]. vm_compute. discriminate.
  - intros Hin.
    apply (proj1 (warning_iff_undeclared_so_far ResCPU "a"
                    [Sample.big; Sample.undeclared])) in Hin.
    destruct Hin as (pre & c & post & Heq & Hn & Hl & Hpre).
    destruct pre as [|c1 pre]; injection Heq as <- Heq.
    + vm_compute in Hl. discriminate.
    + specialize (Hpre Sample.big (or_introl eq_refl)). vm_compute in Hpre.
      now apply Hpre.
Defined.

End AggregationFacts.


(** ** The handler: responses, cleanup and the store *)

Section HandlerFacts.

Ltac kinds :=
  intros;
  repeat match goal with
    | e : Event |- _ => destruct e
    | b : bool |- _ => destruct b
    end; cbn in *; congruence.

(** Evaluates the classifiers over the trace of an outcome. *)
Ltac eval_kinds :=
  unfold response, through_loop, failure_events, handled, error_response, script_event;
  cbn [trace store statusCode];
  rewrite ?existsb_app, ?List.filter_app;
  rewrite ?existsb_loop_events by kinds;
  rewrite ?existsb_warnings by kinds;
  rewrite ?loop_events_filter by kinds;
  rewrite ?warnings_filter by kinds;
  cbn [existsb List.filter app orb is_response gateway_failure internal_failure
       script_failure jid_failure is_cancellation is_header is_removal
       is_recording cleanup_failure is_ok_header is_nil_list length];
  change (StatusOK =? StatusOK) with true;
  change (StatusInternalServerError =? StatusOK) with false;
  change (StatusGatewayTimeout =? StatusOK) with false;
  cbn [existsb List.filter app orb length is_nil_list].

(** X9. The writes of a run to the response are either none or one
    status line followed by one body, in this order.  Nothing is written
    exactly when the script generation is reached and fails (the body is
    read, the runtime selected, the pod unmarshalled, all mounts prepared
    and [produceSLURMScript] returns an error); the status line is written
    at most once per request. *)
Theorem response_written_at_most_once (h : SidecarHandler) (env : Collaborators)
    (r : Request) :
  let s := run h env r in
  (length (List.filter is_header (trace s)) <= 1)%nat /\
  is_nil_list (response s) = existsb script_failure (trace s) /\
  length (response s) = (if existsb script_failure (trace s) then 0 else 2)%nat /\
  (response s = [] \/
   exists code body, response s = [WriteHeader code; Write body]) /\
  (response s = [] <->
   exists body rt data path e,
     ReadAll_Body r = (body, None) /\
     createRuntime (ContainerRuntime (Config h)) = inl rt /\
     json_Unmarshal env body = (data, None) /\
     forallb (mounts_ok h env data) (all_containers data) = true /\
     script_call h env rt data = (path, Some e)).
Proof.
  cbv zeta. generalize (run_outcome h env r). generalize (run h env r).
  intros s Ho.
  assert (Hsplit : forall data cs1 c cs2,
             all_containers data = cs1 ++ c :: cs2 ->
             mounts_ok h env data c = false ->
             forallb (mounts_ok h env data) (all_containers data) = true -> False).
  { intros data cs1 c cs2 Heq Hbad Hall. rewrite Heq, forallb_app in Hall.
    cbn [forallb] in Hall. rewrite Hbad, andb_false_r in Hall. discriminate. }
  destruct Ho; eval_kinds;
    (split; [lia|]); (split; [reflexivity|]); (split; [reflexivity|]);
    (split; [eauto|]);
    (split; [intros Hnil; try discriminate Hnil; eauto 10|]);
    intros (body' & rt' & data' & path' & e' & Hb' & Hrt' & Hd' & Hall' & Hs');
    agree; try reflexivity; exfalso; eapply Hsplit; eassumption.
Qed.

Lemma response_written_at_most_once_witness :
  response (run (Sample.handler "singularity")
              (Sample.with_script_failing
                 (Sample.env_ok Sample.pod1 "--bind /a:/a"))
              Sample.request) = [].
Proof.
  apply (proj2 (proj2 (proj2 (proj2 (proj2
           (response_written_at_most_once (Sample.handler "singularity")
              (Sample.with_script_failing
                 (Sample.env_ok Sample.pod1 "--bind /a:/a"))
              Sample.request)))))).
  do 5 eexists. repeat split; vm_compute; reflexivity.
Defined.

(** X10. [os.RemoveAll] is called exactly in the runs in which a mount
    preparation, the script generation, the submission or the job-id
    recording failed, at most once, and only on the working directory of
    the pod: it is not called on success, nor when the body, the runtime
    name, the pod JSON or the response marshalling fails. *)
Theorem removal_only_after_cleanup_failure (h : SidecarHandler)
    (env : Collaborators) (r : Request) :
  let s := run h env r in
  existsb is_removal (trace s) = existsb cleanup_failure (trace s) /\
  (length (List.filter is_removal (trace s)) <= 1)%nat /\
  (forall p, In p (List.filter is_removal (trace s)) ->
     exists body data,
       ReadAll_Body r = (body, None) /\
       json_Unmarshal env body = (data, None) /\
       p = RemoveAll (filesPath_of h data)).
Proof.
  cbv zeta. generalize (run_outcome h env r). generalize (run h env r).
  intros s Ho.
  destruct Ho; eval_kinds; (split; [reflexivity|]); (split; [lia|]);
    intros p Hp; cbn [In] in Hp;
    repeat match goal with
      | H : _ \/ _ |- _ => destruct H
      | H : False |- _ => destruct H
      end; subst; eauto.
Qed.

Lemma removal_only_after_cleanup_failure_witness :
  let s := run (Sample.handler "singularity")
               (Sample.with_submit_failing (Sample.env_ok Sample.pod1 "--bind /a:/a"))
               Sample.request in
  In (RemoveAll Sample.path1) (List.filter is_removal (trace s)) /\
  exists body data,
    ReadAll_Body Sample.request = (body, None) /\
    json_Unmarshal (Sample.with_submit_failing (Sample.env_ok Sample.pod1 "--bind /a:/a"))
      body = (data, None) /\
    RemoveAll Sample.path1 =
      RemoveAll (filesPath_of (Sample.handler "singularity") data).
Proof.
  cbv zeta.
  assert (Hin : In (RemoveAll Sample.path1)
                   (List.filter is_removal
                      (trace (run (Sample.handler "singularity")
                                  (Sample.with_submit_failing
                                     (Sample.env_ok Sample.pod1 "--bind /a:/a"))
                                  Sample.request))))
    by (vm_compute; tauto).
  split; [exact Hin|].
  exact (proj2 (proj2 (removal_only_after_cleanup_failure _ _ _)) _ Hin).
Defined.

(** X11. [deleteContainer] is called exactly in the runs in which the
    job-id recording failed, and a run that does not reach the recorder
    leaves the job-tracking store as it found it. *)
Theorem store_touched_only_by_recording (h : SidecarHandler) (env : Collaborators)
    (r : Request) :
  let s := run h env r in
  existsb is_cancellation (trace s) = existsb jid_failure (trace s) /\
  (existsb is_recording (trace s) = false -> store s = JIDs h).
Proof.
  cbv zeta. generalize (run_outcome h env r). generalize (run h env r).
  intros s Ho.
  destruct Ho; eval_kinds; (split; [reflexivity|]); intros Hrec;
    try discriminate Hrec; reflexivity.
Qed.

Lemma store_touched_only_by_recording_witness :
  let h := {| Config := Config (Sample.handler "singularity");
              JIDs := {[ "other" := "7" ]} |} in
  let s := run h (Sample.with_script_failing (Sample.env_ok Sample.pod1 "--bind /a:/a"))
               Sample.request in
  existsb is_recording (trace s) = false /\ store s = JIDs h.
Proof.
  cbv zeta. split; [vm_compute; reflexivity|].
  apply (proj2 (store_touched_only_by_recording _ _ _)).
  vm_compute. reflexivity.
Defined.

(** X12. Status 200 is sent only when every stage has succeeded.  The
    body is then what [json.Marshal] gave for the pod's UID and the job
    id returned by the recorder, the store is the one the recorder left,
    and neither [os.RemoveAll] nor [deleteContainer] has been called. *)
Theorem success_response (h : SidecarHandler) (env : Collaborators) (r : Request) :
  let s := run h env r in
  existsb is_ok_header (trace s) = true ->
  exists body rt data path out jid j' bytes,
    ReadAll_Body r = (body, None) /\
    createRuntime (ContainerRuntime (Config h)) = inl rt /\
    json_Unmarshal env body = (data, None) /\
    forallb (mounts_ok h env data) (all_containers data) = true /\
    script_call h env rt data = (path, None) /\
    SLURMBatchSubmit env (Config h) path = (out, None) /\
    handleJidAndPodUid env (data_Pod data) (JIDs h) out (filesPath_of h data) =
      ((jid, None), j') /\
    json_Marshal env {| PodUID := pod_uid data; PodJID := jid |} = (bytes, None) /\
    response s = [WriteHeader StatusOK; Write bytes] /\
    store s = j' /\
    existsb is_removal (trace s) = false /\
    existsb is_cancellation (trace s) = false.
Proof.
  cbv zeta. generalize (run_outcome h env r). generalize (run h env r).
  intros s Ho.
  destruct Ho as [| | | | | | | |body rt data path out jid j' bytes];
    eval_kinds; intros Hok; try discriminate Hok.
  exists body, rt, data, path, out, jid, j', bytes. repeat split; assumption.
Qed.

Lemma success_response_witness :
  let s := run (Sample.handler "singularity")
               (Sample.env_ok Sample.pod1 "--bind /a:/a") Sample.request in
  existsb is_ok_header (trace s) = true /\
  existsb is_removal (trace s) = false /\
  existsb is_cancellation (trace s) = false.
Proof.
  cbv zeta. split; [vm_compute; reflexivity|].
  destruct (success_response (Sample.handler "singularity")
              (Sample.env_ok Sample.pod1 "--bind /a:/a") Sample.request)
    as (body & rt & data & path & out & jid & j' & bytes & _ & _ & _ & _ & _ & _
        & _ & _ & _ & _ & Hr & Hc);
    [vm_compute; reflexivity|].
  split; [exact Hr | exact Hc].
Defined.

End HandlerFacts.

(** ** What the script generator is given *)

Section ScriptInput.

(** A script-generation event of a run is the one of the outcomes that
    pass the loop. *)
Lemma script_event_inv (h : SidecarHandler) (env : Collaborators) (r : Request)
    cmds limits dc dr ok :
  In (CallProduceSLURMScript cmds limits dc dr ok) (trace (run h env r)) ->
  exists body rt data,
    ReadAll_Body r = (body, None) /\
    createRuntime (ContainerRuntime (Config h)) = inl rt /\
    json_Unmarshal env body = (data, None) /\
    forallb (mounts_ok h env data) (all_containers data) = true /\
    CallProduceSLURMScript cmds limits dc dr ok = script_event h env rt data ok /\
    List.filter is_warning (trace (run h env r)) =
      List.filter is_warning (loop_events rt agg_init (all_containers data)).
Proof.
  generalize (run_outcome h env r). generalize (run h env r). intros s Ho Hin.
  assert (Hno : forall rt data rest,
             In (CallProduceSLURMScript cmds limits dc dr ok)
                (through_loop h rt data ++ rest) ->
             In (CallProduceSLURMScript cmds limits dc dr ok) rest).
  { intros rt data rest H. apply in_app_iff in H as [H | H]; [|assumption].
    apply in_through_loop in H as [H | [H | [H | [H _]]]]; discriminate. }
  destruct Ho as [| | |body rt data cs1 c cs2 Hb Hrt Hd Hsplit Hok1 Hc
                  |body rt data|body rt data|body rt data|body rt data|body rt data];
    cbn [trace] in *.
  1-3: exfalso; unfold handled, error_response in Hin; cbn [In app] in Hin;
    repeat (destruct Hin as [Hin | Hin]; [discriminate Hin|]); exact Hin.
  { exfalso. apply in_mounts_failed in Hin as [Hq _]. discriminate. }
  all: apply Hno in Hin; unfold script_event, handled, error_response in Hin;
    cbn [In app] in Hin; destruct Hin as [Hin | Hin];
    [ injection Hin as <- <- <- <- <-; exists body, rt, data;
      repeat (split; [assumption || reflexivity|]);
      unfold through_loop, script_event, handled, error_response;
      rewrite !List.filter_app; cbn [List.filter is_warning app];
      now rewrite app_nil_r
    | exfalso; repeat (destruct Hin as [Hin | Hin]; [discriminate Hin|]);
      exact Hin ].
Qed.

Lemma commands_names h env rt data cs : forall i,
  map containerName (commands_from h env rt data i cs) = map Name cs /\
  map containerCommand (commands_from h env rt data i cs) = map Command cs /\
  map containerArgs (commands_from h env rt data i cs) = map Args cs /\
  map isInitContainer (commands_from h env rt data i cs) =
    map (fun j => (j <? length (InitContainers (data_Pod data)))%nat)
        (seq i (length cs)).
Proof.
  induction cs as [|c cs IH]; intros i; cbn; [auto|].
  destruct (IH (S i)) as (-> & -> & -> & ->). auto.
Qed.

Lemma map_seq_below n k : forall i,
  (i + k <= n)%nat -> map (fun j => (j <? n)%nat) (seq i k) = repeat true k.
Proof.
  induction k as [|k IH]; intros i Hi; cbn; [reflexivity|].
  rewrite IH by lia. f_equal. apply Nat.ltb_lt. lia.
Qed.

Lemma map_seq_above n k : forall i,
  (n <= i)%nat -> map (fun j => (j <? n)%nat) (seq i k) = repeat false k.
Proof.
  induction k as [|k IH]; intros i Hi; cbn; [reflexivity|].
  rewrite IH by lia. f_equal. apply Nat.ltb_ge. lia.
Qed.

(** X13. The commands handed to the script generator are one per
    container, in the order init containers then regular containers; each
    carries the name, command and arguments of its container, and the
    init flag is set on exactly the commands of the init containers. *)
Theorem commands_follow_containers (h : SidecarHandler) (env : Collaborators)
    (r : Request) cmds limits dc dr ok :
  In (CallProduceSLURMScript cmds limits dc dr ok) (trace (run h env r)) ->
  exists body data,
    ReadAll_Body r = (body, None) /\
    json_Unmarshal env body = (data, None) /\
    let init := InitContainers (data_Pod data) in
    let regular := Containers (data_Pod data) in
    map containerName cmds = map Name (init ++ regular) /\
    map containerCommand cmds = map Command (init ++ regular) /\
    map containerArgs cmds = map Args (init ++ regular) /\
    map isInitContainer cmds =
      repeat true (length init) ++ repeat false (length regular).
Proof.
  intros Hin.
  destruct (script_event_inv _ _ _ _ _ _ _ _ Hin)
    as (body & rt & data & Hb & _ & Hd & _ & Hev & _).
  exists body, data. split; [assumption|]. split; [assumption|].
  unfold script_event in Hev. injection Hev as -> _ _ _.
  unfold final_commands, all_containers. cbv zeta.
  destruct (commands_names h env rt data
              (InitContainers (data_Pod data) ++ Containers (data_Pod data)) 0)
    as (-> & -> & -> & ->).
  repeat split.
  rewrite length_app, seq_app, map_app.
  now rewrite map_seq_below, map_seq_above by lia.
Qed.

Lemma commands_follow_containers_witness :
  let p := Sample.pod [Sample.big] [Sample.undeclared; Sample.at_floor] in
  let s := run (Sample.handler "enroot") (Sample.env_ok p "--bind /a:/a") Sample.request in
  exists cmds limits dc dr,
    In (CallProduceSLURMScript cmds limits dc dr true) (trace s) /\
    map containerName cmds = ["c"; "a"; "b"] /\
    map isInitContainer cmds = [true; false; false].
Proof.
  cbv zeta.
  set (p := Sample.pod [Sample.big] [Sample.undeclared; Sample.at_floor]).
  set (h := Sample.handler "enroot").
  set (env := Sample.env_ok p "--bind /a:/a").
  exists (final_commands h env EnrootRuntime {| data_Pod := p |}),
         (resourceLimits (final_agg {| data_Pod := p |})),
         (isDefaultCPU (final_agg {| data_Pod := p |})),
         (isDefaultRam (final_agg {| data_Pod := p |})).
  assert (Hin : In (script_event h env EnrootRuntime {| data_Pod := p |} true)
                   (trace (run h env Sample.request)))
    by (vm_compute; tauto).
  split; [exact Hin|].
  destruct (commands_follow_containers _ _ _ _ _ _ _ _ Hin)
    as (body & data & _ & Hd & Hn & _ & _ & Hi).
  injection Hd as <-. split; [exact Hn | exact Hi].
Defined.

Lemma assemble_selected config rt commstr1 envs mounts image c uid :
  createRuntime (ContainerRuntime config) = inl rt ->
  assemble config commstr1 envs mounts image c uid =
    commstr1 ++ envs ++ trailer rt mounts image c uid.
Proof.
  unfold createRuntime, assemble, trailer.
  destruct (String.eqb (ContainerRuntime config) "singularity").
  - intros [= <-]. now rewrite <- !app_assoc.
  - destruct (String.eqb (ContainerRuntime config) "enroot"); [|discriminate].
    intros [= <-]. now rewrite <- !app_assoc.
Qed.

Lemma commands_shape h env rt data cs : forall i,
  createRuntime (ContainerRuntime (Config h)) = inl rt ->
  Forall2
    (fun c cmd =>
       containerImage cmd =
         prepareImage env (Config h) (Pod_ObjectMeta (data_Pod data)) (Image c) /\
       runtimeCommand cmd =
         prepareCommand env rt (Config h) c (Pod_ObjectMeta (data_Pod data)) ++
         prepareEnvs env (Config h) data c ++
         trailer rt (fst (prepareMounts env (Config h) data c (filesPath_of h data)))
           (containerImage cmd) c (pod_uid data))
    cs (commands_from h env rt data i cs).
Proof.
  intros i Hrt. revert i. induction cs as [|c cs IH]; intros i; cbn; constructor.
  - split; [reflexivity|]. cbn. now apply assemble_selected.
  - apply IH.
Qed.

(** X14. Every command handed to the script generator is the prefix
    built by the selected runtime, then the environment tokens, then
    exactly two more tokens, and these two belong to the same runtime as
    the prefix: mount fragment and image for singularity, stripped mount
    fragment and container name for enroot.  The [switch] of lines
    167-177 never falls through. *)
Theorem commands_match_selected_runtime (h : SidecarHandler) (env : Collaborators)
    (r : Request) cmds limits dc dr ok :
  In (CallProduceSLURMScript cmds limits dc dr ok) (trace (run h env r)) ->
  exists body rt data,
    ReadAll_Body r = (body, None) /\
    createRuntime (ContainerRuntime (Config h)) = inl rt /\
    json_Unmarshal env body = (data, None) /\
    Forall2
      (fun c cmd =>
         containerImage cmd =
           prepareImage env (Config h) (Pod_ObjectMeta (data_Pod data)) (Image c) /\
         runtimeCommand cmd =
           prepareCommand env rt (Config h) c (Pod_ObjectMeta (data_Pod data)) ++
           prepareEnvs env (Config h) data c ++
           trailer rt (fst (prepareMounts env (Config h) data c (filesPath_of h data)))
             (containerImage cmd) c (pod_uid data))
      (all_containers data) cmds.
Proof.
  intros Hin.
  destruct (script_event_inv _ _ _ _ _ _ _ _ Hin)
    as (body & rt & data & Hb & Hrt & Hd & _ & Hev & _).
  exists body, rt, data. repeat (split; [assumption|]).
  unfold script_event in Hev. injection Hev as -> _ _ _.
  now apply commands_shape.
Qed.

Lemma commands_match_selected_runtime_witness :
  let h := Sample.handler "enroot" in
  let env := Sample.env_ok Sample.pod1 "/a:/a:ro" in
  exists cmds limits dc dr,
    In (CallProduceSLURMScript cmds limits dc dr true)
       (trace (run h env Sample.request)) /\
    map runtimeCommand cmds = [["enroot"; "start"; "--env"; "A=B"; "/a:/a"; "auid-1"]].
Proof.
  cbv zeta.
  set (h := Sample.handler "enroot").
  set (env := Sample.env_ok Sample.pod1 "/a:/a:ro").
  exists (final_commands h env EnrootRuntime {| data_Pod := Sample.pod1 |}),
         (resourceLimits (final_agg {| data_Pod := Sample.pod1 |})),
         (isDefaultCPU (final_agg {| data_Pod := Sample.pod1 |})),
         (isDefaultRam (final_agg {| data_Pod := Sample.pod1 |})).
  assert (Hin : In (script_event h env EnrootRuntime {| data_Pod := Sample.pod1 |} true)
                   (trace (run h env Sample.request)))
    by (vm_compute; tauto).
  split; [exact Hin|].
  destruct (commands_match_selected_runtime _ _ _ _ _ _ _ _ Hin)
    as (body & rt & data & _ & Hrt & Hd & Hall).
  injection Hd as <-. injection Hrt as <-.
  change (final_commands h env EnrootRuntime {| data_Pod := Sample.pod1 |})
    with [command_of h env EnrootRuntime {| data_Pod := Sample.pod1 |} 0
            Sample.undeclared] in *.
  apply Forall2_cons_1 in Hall as [[_ Hcmd] _].
  cbn [map]. rewrite Hcmd. reflexivity.
Defined.

Lemma loop_events_warnings rt cs : forall a,
  List.filter is_warning (loop_events rt a cs) = snd (aggregate_from a [] cs).
Proof.
  induction cs as [|c cs IH]; intros a; [reflexivity|].
  rewrite aggregate_from_cons. cbn [loop_events snd]. unfold body_events.
  rewrite !List.filter_app, IH. cbn [List.filter is_warning]. rewrite app_nil_r.
  f_equal. pose proof (limits_step_warnings c a) as Hall.
  induction Hall as [|w ws Hw _ IHw]; cbn; [reflexivity|]. now rewrite Hw, IHw.
Qed.

(** X15. Whenever the script generator is called it is given the limits
    and the two flags that [aggregate] computes over the init containers
    followed by the regular containers, and the default-usage warnings
    logged in that run are exactly the warnings of [aggregate], in their
    order. *)
Theorem script_limits_and_warnings (h : SidecarHandler) (env : Collaborators)
    (r : Request) cmds limits dc dr ok :
  In (CallProduceSLURMScript cmds limits dc dr ok) (trace (run h env r)) ->
  exists body data,
    ReadAll_Body r = (body, None) /\
    json_Unmarshal env body = (data, None) /\
    let result := aggregate (InitContainers (data_Pod data) ++ Containers (data_Pod data)) in
    limits = resourceLimits (fst result) /\
    dc = isDefaultCPU (fst result) /\
    dr = isDefaultRam (fst result) /\
    List.filter is_warning (trace (run h env r)) = snd result.
Proof.
  intros Hin.
  destruct (script_event_inv _ _ _ _ _ _ _ _ Hin)
    as (body & rt & data & Hb & _ & Hd & _ & Hev & Hw).
  exists body, data. split; [assumption|]. split; [assumption|].
  unfold script_event in Hev. injection Hev as _ -> -> ->.
  cbv zeta. rewrite Hw, loop_events_warnings. repeat split.
Qed.

Lemma script_limits_and_warnings_witness :
  let p := Sample.pod [Sample.undeclared] [Sample.big] in
  let s := run (Sample.handler "singularity") (Sample.env_ok p "--bind /a:/a")
               Sample.request in
  exists cmds,
    In (CallProduceSLURMScript cmds {| CPU := 3; Memory := 2097152 |} false false true)
       (trace s) /\
    List.filter is_warning (trace s) = [LogWarning ResCPU "a"; LogWarning ResMemory "a"].
Proof.
  cbv zeta.
  set (p := Sample.pod [Sample.undeclared] [Sample.big]).
  set (h := Sample.handler "singularity").
  set (env := Sample.env_ok p "--bind /a:/a").
  exists (final_commands h env SingularityRuntime {| data_Pod := p |}).
  assert (Hin : In (CallProduceSLURMScript
                      (final_commands h env SingularityRuntime {| data_Pod := p |})
                      {| CPU := 3; Memory := 2097152 |} false false true)
                   (trace (run h env Sample.request)))
    by (vm_compute; tauto).
  split; [exact Hin|].
  destruct (script_limits_and_warnings _ _ _ _ _ _ _ _ Hin)
    as (body & data & _ & Hd & _ & _ & _ & Hw).
  injection Hd as <-. exact Hw.
Defined.

End ScriptInput.

(** ** The order of the stages *)

Section Pipeline.

Ltac kinds :=
  intros;
  repeat match goal with
    | e : Event |- _ => destruct e
    | b : bool |- _ => destruct b
    end; cbn in *; congruence.

Ltac eval_stage :=
  unfold through_loop, failure_events, handled, error_response, script_event;
  cbn [trace];
  rewrite ?existsb_app;
  rewrite ?existsb_loop_events by kinds;
  rewrite ?existsb_warnings by kinds;
  cbn [existsb app orb is_submission is_recording is_marshal].

Lemma after_loop (e : Event) h rt data rest :
  container_level e = false ->
  e <> CallReadAll true ->
  e <> CallCreateRuntime (ContainerRuntime (Config h)) true ->
  e <> CallUnmarshal true ->
  In e (through_loop h rt data ++ rest) -> In e rest.
Proof.
  intros Hc H1 H2 H3 Hin. apply in_app_iff in Hin as [Hin | Hin]; [|assumption].
  apply in_through_loop in Hin as [-> | [-> | [-> | [Hin _]]]]; congruence.
Qed.

Ltac pick Hin :=
  apply after_loop in Hin; [|reflexivity|discriminate|discriminate|discriminate];
  unfold script_event, handled, error_response in Hin; cbn [In app] in Hin;
  repeat (destruct Hin as [Hin | Hin]; [try discriminate Hin|]);
  try contradiction.

(** X16. The stages follow one another only on success: a job is
    submitted only with the path that a successful script generation
    returned, the job id is recorded only after a submission that
    succeeded, and the response is marshalled only after a recording
    that succeeded. *)
Theorem stages_in_order (h : SidecarHandler) (env : Collaborators) (r : Request) :
  let tr := trace (run h env r) in
  (forall path ok, In (CallSLURMBatchSubmit path ok) tr ->
     exists rt data,
       script_call h env rt data = (path, None) /\
       occurs_before (script_event h env rt data true)
         (CallSLURMBatchSubmit path ok) tr) /\
  (forall uid ok, In (CallHandleJidAndPodUid uid ok) tr ->
     exists path out,
       SLURMBatchSubmit env (Config h) path = (out, None) /\
       occurs_before (CallSLURMBatchSubmit path true)
         (CallHandleJidAndPodUid uid ok) tr) /\
  (forall ok, In (CallMarshal ok) tr ->
     exists uid,
       occurs_before (CallHandleJidAndPodUid uid true) (CallMarshal ok) tr).
Proof.
  cbv zeta. generalize (run_outcome h env r). generalize (run h env r).
  intros s Ho. split; [|split].
  - intros path0 ok Hin.
    assert (Hex : existsb is_submission (trace s) = true)
      by (apply existsb_exists; eauto).
    destruct Ho as [| | | |
                    |body rt data path out e Hb Hrt Hd Hok Hs Hsub
                    |body rt data path out jid e j' Hb Hrt Hd Hok Hs Hsub Hj
                    |body rt data path out jid j' bytes e Hb Hrt Hd Hok Hs Hsub Hj Hm
                    |body rt data path out jid j' bytes Hb Hrt Hd Hok Hs Hsub Hj Hm];
      try (revert Hex; eval_stage; intros Hex; discriminate Hex);
      cbn [trace] in *; pick Hin; injection Hin as <- <-;
      exists rt, data; (split; [assumption|]);
      exists (through_loop h rt data), []; eexists; reflexivity.
  - intros uid ok Hin.
    assert (Hex : existsb is_recording (trace s) = true)
      by (apply existsb_exists; eauto).
    destruct Ho as [| | | | |
                    |body rt data path out jid e j' Hb Hrt Hd Hok Hs Hsub Hj
                    |body rt data path out jid j' bytes e Hb Hrt Hd Hok Hs Hsub Hj Hm
                    |body rt data path out jid j' bytes Hb Hrt Hd Hok Hs Hsub Hj Hm];
      try (revert Hex; eval_stage; intros Hex; discriminate Hex);
      cbn [trace] in *; pick Hin; injection Hin as <- <-;
      exists path, out; (split; [assumption|]);
      exists (through_loop h rt data ++ [script_event h env rt data true]), [];
      eexists; rewrite <- app_assoc; reflexivity.
  - intros ok Hin.
    assert (Hex : existsb is_marshal (trace s) = true)
      by (apply existsb_exists; eauto).
    destruct Ho as [| | | | | |
                    |body rt data path out jid j' bytes e Hb Hrt Hd Hok Hs Hsub Hj Hm
                    |body rt data path out jid j' bytes Hb Hrt Hd Hok Hs Hsub Hj Hm];
      try (revert Hex; eval_stage; intros Hex; discriminate Hex);
      cbn [trace] in *; pick Hin; injection Hin as <-;
      exists (pod_uid data);
      exists (through_loop h rt data ++
              [script_event h env rt data true; CallSLURMBatchSubmit path true]), [];
      eexists; rewrite <- app_assoc; reflexivity.
Qed.

Lemma stages_in_order_witness :
  let h := Sample.handler "singularity" in
  let env := Sample.with_jid_failing (Sample.env_ok Sample.pod1 "--bind /a:/a") in
  In (CallHandleJidAndPodUid "uid-1" false) (trace (run h env Sample.request)) /\
  exists path out,
    SLURMBatchSubmit env (Config h) path = (out, None) /\
    occurs_before (CallSLURMBatchSubmit path true)
      (CallHandleJidAndPodUid "uid-1" false) (trace (run h env Sample.request)).
Proof.
  cbv zeta.
  assert (Hin : In (CallHandleJidAndPodUid "uid-1" false)
                   (trace (run (Sample.handler "singularity")
                               (Sample.with_jid_failing
                                  (Sample.env_ok Sample.pod1 "--bind /a:/a"))
                               Sample.request)))
    by (vm_compute; tauto).
  split; [exact Hin|].
  exact (proj1 (proj2 (stages_in_order _ _ _)) _ _ Hin).
Defined.

End Pipeline.

(** ** Mount fragments without a marker *)

Section Markers.

Lemma strip_id s : Str.contains ":ro" s = false -> strip s = s.
Proof.
  induction s as [|c r IH]; intros Hno; [reflexivity|].
  rewrite strip_unfold, (contains_head _ _ Hno).
  now rewrite IH by (eapply contains_tail; eauto).
Qed.

Lemma strip_length_bounded n : forall s,
  (String.length s <= n)%nat ->
  (String.length (strip s) <= String.length s)%nat /\
  (Str.contains ":ro" s = true -> (String.length (strip s) < String.length s)%nat).
Proof.
  induction n as [|n IH]; intros s Hlen.
  - destruct s; [|cbn in Hlen; lia]. split; [reflexivity|discriminate].
  - rewrite (strip_unfold s). destruct s as [|c r]; [split; [reflexivity|discriminate]|].
    cbn [String.length] in Hlen.
    destruct (Str.has_prefix ":ro" (String c r)) eqn:E.
    + destruct r as [|c1 [|c2 rest]].
      * cbn. split; [lia | intros _; lia].
      * cbn. split; [lia | intros _; lia].
      * cbn [String.length] in *. destruct (IH rest) as [Hle _]; [lia|].
        split; [lia | intros _; lia].
    + rewrite contains_cons, E. cbn [orb String.length].
      destruct (IH r) as [Hle Hlt]; [lia|].
      split; [lia|]. intros Hc. specialize (Hlt Hc). lia.
Qed.

(** X17. For enroot the mount fragment is replaced by a string that is
    never longer, and it is left exactly as it was when, and only when,
    it contains no ":ro": a fragment without a marker reaches the command
    unchanged. *)
Theorem fragment_changed_iff_marker (mounts : string) :
  String.eqb (ReplaceAll mounts ":ro" EmptyString) mounts =
    negb (Str.contains ":ro" mounts) /\
  (String.length (ReplaceAll mounts ":ro" EmptyString) <= String.length mounts)%nat.
Proof.
  rewrite ReplaceAll_strip.
  destruct (strip_length_bounded (String.length mounts) mounts (le_n _)) as [Hle Hlt].
  split; [|exact Hle].
  destruct (Str.contains ":ro" mounts) eqn:Hc; cbn [negb].
  - apply String.eqb_neq. intros Heq. specialize (Hlt eq_refl).
    rewrite Heq in Hlt. lia.
  - apply String.eqb_eq. now apply strip_id.
Qed.

End Markers.
